(** * The SQL renderer of sij (src/render/index.ts)

    A shallow embedding of the [Renderer] class: the AST the renderer walks,
    the mutable parameter buffer as explicit state, [throw] as an outcome,
    and one Rocq function per render method, in the order of the source. *)

From Stdlib Require Import Bool String Ascii List ZArith DecimalString.
From Stdlib Require DecimalNat DecimalFacts DecimalPos DecimalZ.
From Stdlib Require Import Lia.
Import ListNotations.
Open Scope list_scope.
Open Scope string_scope.

(** ** Numbers

    [Z_toString]: the decimal representation of an integer. *)
Definition Z_toString (z : Z) : string :=
  NilZero.string_of_int (Z.to_int z).

(** A JavaScript number as its string conversion reads it (ECMA-262,
    Number::toString): NaN, an infinity, a zero, or a finite value that is
    not zero, given by its sign and the integers [s] and [n] of the
    conversion. The value is [s * 10 ^ (n - k)] for [k] the number of
    decimal digits of [s], with [k] as small as possible, so [s] does not
    end in a zero. *)
Inductive number : Type :=
| NaN
| Infinity (negative : bool)
| Zero (negative : bool)
| Finite (negative : bool) (s : positive) (n : Z).

Definition digitString (u : Decimal.uint) : string :=
  NilEmpty.string_of_uint u.

(** [j] occurrences of the digit zero. *)
Definition zeros (j : nat) : Decimal.uint :=
  Nat.iter j Decimal.D0 Decimal.Nil.

(** [k], the number of decimal digits of [s]. *)
Definition numDigits (s : positive) : Z :=
  Z.of_nat (Decimal.nb_digits (Pos.to_uint s)).

(** Number::toString for a positive finite value, radix 10: plain digits
    for [n] from -5 to 21 (zeros appended when [k <= n], a point after the
    first [n] digits when [0 < n], [0.] and [-n] zeros in front otherwise),
    exponent notation outside. *)
Definition Number_toString_finite (s : positive) (n : Z) : string :=
  let ds := Pos.to_uint s in
  let k := numDigits s in
  if ((-5 <=? n) && (n <=? 21))%Z then
    if (k <=? n)%Z then
      digitString ds ++ digitString (zeros (Z.to_nat (n - k)))
    else if (0 <? n)%Z then
      digitString (Decimal.del_tail (Z.to_nat (k - n)) ds) ++ "."
        ++ digitString (Decimal.del_head (Z.to_nat n) ds)
    else
      "0." ++ digitString (zeros (Z.to_nat (- n))) ++ digitString ds
  else
    let exponentSign := if (n <? 0)%Z then "-" else "+" in
    let e := Z_toString (Z.abs (n - 1)) in
    if (k =? 1)%Z then
      digitString ds ++ "e" ++ exponentSign ++ e
    else
      digitString (Decimal.del_tail (Z.to_nat (k - 1)) ds) ++ "."
        ++ digitString (Decimal.del_head 1 ds) ++ "e" ++ exponentSign ++ e.

(** ['' + v] for a number [v]. *)
Definition Number_toString (x : number) : string :=
  match x with
  | NaN => "NaN"
  | Zero _ => "0"
  | Infinity negative => (if negative then "-" else "") ++ "Infinity"
  | Finite negative s n =>
      (if negative then "-" else "") ++ Number_toString_finite s n
  end.



(** The digits of [p] without its trailing zeros, as an integer. *)
Definition significand (p : positive) : positive :=
  match Pos.of_uint (fst (Decimal.nztail (Pos.to_uint p))) with
  | Npos s => s
  | N0 => p
  end.

(** The number an integer literal denotes, for a safe integer: beyond
    [MAX_SAFE_INTEGER] a number's shortest digits need not be those of an
    integer's exact value. *)
Definition integer (z : Z) : number :=
  match z with
  | Z0 => Zero false
  | Zpos p => Finite false (significand p) (numDigits p)
  | Zneg p => Finite true (significand p) (numDigits p)
  end.

(** ** Reading a decimal numeral

    What a plain decimal numeral, digits with at most one point inside and
    a minus sign in front at most, stands for: [(m, f)] for the integer [m]
    its digits spell without the point and the number [f] of digits behind
    the point, the value being [m / 10 ^ f]. A text of another form has no
    value. *)




(** ** Host values

    What the JavaScript runtime supplies and the renderer only passes through:
    [Date] objects with [toISOString], which gives the ISO-8601 text of a
    valid date and raises a RangeError on an invalid one ([None]), the
    payloads of the extension slots, the data types (src/ast/data-type.ts is
    not part of the renderer), and the source text a function object
    stringifies to. *)
Class Host : Type := {
  Date : Type;
  toISOString : Date -> option string;
  object : Type;
  ExprExt : Type;
  TableExt : Type;
  DataType : Type;
  function_toString_renderDomainDefinition : string
}.

(** The double quote character and a text between two of them. *)
Definition dquote : string := String (ascii_of_nat 34) EmptyString.

Definition dquoted (s : string) : string := dquote ++ s ++ dquote.

(** ** The outcome of a render call: a returned value or a thrown error. *)
Inductive Outcome (A : Type) : Type :=
| Return (a : A)
| Throw (message : string).
Arguments Return {A} a.
Arguments Throw {A} message.

Section Renderer.

Context {host : Host}.

(** [any]: the values the renderer stores in [params: Array<any>]. *)
Inductive any : Type :=
| JNull
| JNumber (n : number)
| JString (s : string)
| JBoolean (b : bool)
| JDate (d : Date)
| JObject (o : object).

(** ** The render monad

    A render method reads and extends [this.params] and either returns or
    throws; the buffer keeps what was pushed before a throw. *)
Definition Render (A : Type) : Type := list any -> Outcome A * list any.

Definition ret {A} (a : A) : Render A := fun ps => (Return a, ps).

Definition throw {A} (message : string) : Render A :=
  fun ps => (Throw message, ps).

Definition bind {A B} (m : Render A) (k : A -> Render B) : Render B :=
  fun ps =>
    match m ps with
    | (Return a, ps') => k a ps'
    | (Throw e, ps') => (Throw e, ps')
    end.

Notation "x <- m ;; k" := (bind m (fun x => k))
  (at level 61, m at next level, right associativity).

(** [this.params.push(val)]: appends and returns the new length. *)
Definition push (val : any) : Render nat :=
  fun ps => (Return (S (List.length ps)), (ps ++ [val])%list).

(** [xs.map(f)] with an effectful callback: left to right, a throw stops it. *)
Definition mapM {A B} (f : A -> Render B) : list A -> Render (list B) :=
  fix go (xs : list A) : Render (list B) :=
    match xs with
    | [] => ret []
    | x :: xs' => y <- f x ;; ys <- go xs' ;; ret (y :: ys)
    end.

(** [xs.join(sep)] on an array of strings. *)
Definition join (sep : string) (xs : list string) : string :=
  String.concat sep xs.

(** ['' + n] for an array length. *)
Definition length_toString (n : nat) : string :=
  NilZero.string_of_uint (Nat.to_uint n).

(** ** The AST

    The type declarations of src/ast (expr.ts, query.ts, literal.ts,
    statement.ts, schema-definition.ts) are not among the sources. The types
    below take their variants from the spec's data model and from the tags
    the renderer switches on, and their fields from what the renderer
    reads. *)

(** Modelled from the spec: an identifier (src/ast/expr.ts), a name. *)
Record Ident : Type := mkIdent { name : string }.

#[local] Set Warnings "-register-all".

(** Modelled from the spec: the [Literal] family (src/ast/literal.ts); a
    [NumLit] holds a number or a pre-formatted numeric string. *)
Inductive Literal : Type :=
| NumLit (val : number + string)
| StringLit (val : string)
| BoolLit (val : bool)
| NullLit
| DateLit (val : Date)
| CustomLit (val : any).

(** Modelled from the spec: the [Expr] family (src/ast/expr.ts) and the
    [Query], [Select] and [Table] families (src/ast/query.ts), which contain
    one another. *)
Inductive Expr : Type :=
| EIdent (ident : Ident)
| Wildcard
| QualifiedWildcard (qualifiers : list Expr)
| CompoundIdentifier (idChain : list Expr)
| Between (expr : Expr) (negated : bool) (low high : Expr)
| BinaryApp (lhs : Expr) (op : string) (rhs : Expr)
| Case (expr : option Expr) (cases : list (Expr * Expr))
       (elseCase : option Expr)
| Cast (expr : Expr) (dataType : DataType)
| Collate (expr : Expr) (collation : Expr)
| Exists (subQuery : Query)
| Extract (field : string) (source : Expr)
| FunctionApp (fname : Expr) (args : list Expr)
| IsNull (negated : bool) (expr : Expr)
| InList (negated : bool) (expr : Expr) (list_ : list Expr)
| InSubQuery (negated : bool) (expr : Expr) (subQuery : Query)
| Lit (literal : Literal)
| Parenthesized (expr : Expr)
| SubQuery (query : Query)
| UnaryApp (op : string) (expr : Expr)
| ExprExtension (val : ExprExt)
with Query : Type :=
| mkQuery (commonTableExprs : list CommonTableExpr) (selection : Select)
          (unions : list SetOp) (ordering : list OrderingExpr)
          (limit offset : option Expr)
with CommonTableExpr : Type :=
| mkCommonTableExpr (alias_name : Ident) (alias_columns : list Ident)
                    (query : Query)
with SetOp : Type :=
| mkSetOp (func : string) (all : bool) (select : Select)
with OrderingExpr : Type :=
| mkOrderingExpr (expr : Expr) (order nullHandling : option string)
with Select : Type :=
| mkSelect (selections : list Selection) (from : option JoinedTable)
           (where_ : option Expr) (groupBy : list Expr) (having : option Expr)
with Selection : Type :=
| AnonymousSelection (selection : Expr)
| AliasedSelection (selection : Expr) (alias : Ident)
with JoinedTable : Type :=
| mkJoinedTable (table : Table) (joins : list Join)
with Join : Type :=
| mkJoin (kind : string) (table : Table) (on : Expr)
with Table : Type :=
| BasicTable (tname : Ident)
| DerivedTable (subQuery : Query) (alias : Ident)
| FunctionTable (func : Expr) (alias : Ident)
| TableExtension (val : TableExt).

(** Modelled from the spec: the data manipulation statements
    (src/ast/statement.ts). A cell of a VALUES row or the right-hand side of
    an assignment is the [DefaultValue] marker or an expression. *)
Inductive Cell : Type :=
| DefaultValue
| CellExpr (c : Expr).

Inductive InsertValues : Type :=
| DefaultValues
| ValuesConstructor (values : list (list Cell))
| ValuesQuery (query : Query).

Inductive Insert : Type :=
| mkInsert (table : Ident) (columns : list Ident)
           (values : option InsertValues).

Inductive Update : Type :=
| mkUpdate (table : Ident) (assignments : list (Ident * Cell))
           (where_ : option Expr).

Inductive UpdatePositioned : Type :=
| mkUpdatePositioned (table : Ident) (assignments : list (Ident * Cell))
                     (cursor : Ident).

Inductive Delete : Type :=
| mkDelete (table : Ident) (where_ : option Expr).

Inductive DeletePositioned : Type :=
| mkDeletePositioned (table : Ident) (cursor : Ident).

(** Modelled from the spec: the schema definitions
    (src/ast/schema-definition.ts), each with the fields its render method
    reads. *)
Record ConstraintCheckTime : Type := mkConstraintCheckTime {
  deferrable : bool;
  initiallyDeferred : bool
}.

Inductive DefaultOption : Type :=
| DefaultLit (literal : Literal)
| CurrentDateDefault
| CurrentTime (precision : option Literal)
| CurrentTimeStamp (precision : option Literal)
| UserDefault
| CurrentUserDefault
| SessionUserDefault
| SystemUserDefault
| NullDefault.

Inductive DomainDefinition : Type :=
| mkDomainDefinition (dname : Ident) (dataType : DataType)
    (default : option DefaultOption) (constraintName : option Ident)
    (constraintExpr : option Query)
    (constraintAttributes : option ConstraintCheckTime)
    (collation : option Ident).

Inductive UniqueConstraint : Type :=
| mkUniqueConstraint (primaryKey : bool) (columns : list Ident).

Inductive MatchType : Type := Regular | Full | Partial.

Inductive ReferentialAction : Type := Cascade | SetNull | SetDefault | NoAction.

Inductive ReferenceConstraint : Type :=
| mkReferenceConstraint (table : Ident) (columns : option (list Ident))
    (matchType : MatchType) (onUpdate onDelete : option ReferentialAction).

Inductive CheckConstraint : Type :=
| mkCheckConstraint (search : Query).

Inductive ColumnConstraint : Type :=
| ColumnNotNull
| ColumnUnique (c : UniqueConstraint)
| ColumnReference (c : ReferenceConstraint)
| ColumnCheck (c : CheckConstraint).

Inductive ColumnConstraintDefinition : Type :=
| mkColumnConstraintDefinition (cname : option Ident)
    (constraint : ColumnConstraint) (attributes : option ConstraintCheckTime).

Inductive TableConstraintKind : Type :=
| TableUnique (c : UniqueConstraint)
| TableReference (c : ReferenceConstraint)
| TableCheck (c : CheckConstraint).

Inductive TableConstraint : Type :=
| mkTableConstraint (cname : option Ident) (constraint : TableConstraintKind)
    (checkTime : option ConstraintCheckTime).

Inductive ColumnDefinition : Type :=
| mkColumnDefinition (cname : Ident) (type : Ident + DataType)
    (default : option DefaultOption)
    (constraints : list ColumnConstraintDefinition)
    (collation : option Ident).

Inductive TableDefinition : Type :=
| mkTableDefinition (tname : Ident) (mode : string)
    (columns : list ColumnDefinition) (constraints : list TableConstraint)
    (onCommit : option string).

Inductive ViewDefinition : Type :=
| mkViewDefinition (vname : Ident) (columns : option (list Ident))
    (query : Query) (checkOption : option string).

Inductive Privilege : Type :=
| SelectPrivilege
| DeletePrivilege
| InsertPrivilege (columns : option (list Ident))
| UpdatePrivilege (columns : option (list Ident))
| ReferencePrivilege (columns : option (list Ident))
| UsagePrivilege.

Inductive ObjectType : Type :=
| OTable | ODomain | OCollation | OCharacterSet | OTranslation.

Inductive GrantStatement : Type :=
| mkGrantStatement (privileges : option (list Privilege))
    (objectName : Ident) (objectType : ObjectType)
    (grantees : option (list Ident)) (grantOption : bool).

Inductive AssertionDefinition : Type :=
| mkAssertionDefinition (aname : Ident) (search : Query)
    (checkTime : option ConstraintCheckTime).

Inductive SchemaElement : Type :=
| ElemDomainDefinition (d : DomainDefinition)
| ElemTableDefinition (d : TableDefinition)
| ElemViewDefinition (d : ViewDefinition)
| ElemGrantStatement (d : GrantStatement)
| ElemAssertionDefinition (d : AssertionDefinition).

Inductive CreateSchema : Type :=
| mkCreateSchema (catalog sname authorization characterSet : option Ident)
    (definitions : list SchemaElement).

(** Modelled from the spec: the schema manipulation statements, with the
    fields the builder (src/builder/schema.ts) gives them. *)
Inductive DropBehavior : Type := DropCascade | DropRestrict.

Inductive RevokePrivilege : Type :=
| mkRevokePrivilege (privileges : option (list Privilege))
    (objectName : Ident) (objectType : ObjectType)
    (grantees : option (list Ident)) (grantOption : bool)
    (behavior : DropBehavior).

Inductive DropTable : Type :=
| mkDropTable (dname : Ident) (behavior : DropBehavior).

Inductive DropView : Type :=
| mkDropView (dname : Ident) (behavior : DropBehavior).

Inductive DropDomain : Type :=
| mkDropDomain (dname : Ident) (behavior : DropBehavior).

Inductive DropAssertion : Type :=
| mkDropAssertion (dname : Ident).

(** Modelled from the spec: the [Statement] family (src/ast/statement.ts)
    with the variants the spec names, and [CreateSchema], which the
    statement switch of the renderer names too. The revoke statement is the
    [RevokePrivilege] the schema builder makes (src/builder/schema.ts). *)
Inductive Statement : Type :=
| SQuery (s : Query)
| SInsert (s : Insert)
| SUpdate (s : Update)
| SDelete (s : Delete)
| SUpdatePositioned (s : UpdatePositioned)
| SDeletePositioned (s : DeletePositioned)
| SCreateSchema (s : CreateSchema)
| STableDefinition (s : TableDefinition)
| SViewDefinition (s : ViewDefinition)
| SGrantStatement (s : GrantStatement)
| SDomainDefinition (s : DomainDefinition)
| SAssertionDefinition (s : AssertionDefinition)
| SRevokePrivilege (s : RevokePrivilege)
| SDropTable (s : DropTable)
| SDropView (s : DropView)
| SDropDomain (s : DropDomain)
| SDropAssertion (s : DropAssertion).

(** [statement._tag] *)
Definition _tag (statement : Statement) : string :=
  match statement with
  | SQuery _ => "Query"
  | SInsert _ => "Insert"
  | SUpdate _ => "Update"
  | SDelete _ => "Delete"
  | SUpdatePositioned _ => "UpdatePositioned"
  | SDeletePositioned _ => "DeletePositioned"
  | SCreateSchema _ => "CreateSchema"
  | STableDefinition _ => "TableDefinition"
  | SViewDefinition _ => "ViewDefinition"
  | SGrantStatement _ => "GrantStatement"
  | SDomainDefinition _ => "DomainDefinition"
  | SAssertionDefinition _ => "AssertionDefinition"
  | SRevokePrivilege _ => "RevokePrivilege"
  | SDropTable _ => "DropTable"
  | SDropView _ => "DropView"
  | SDropDomain _ => "DropDomain"
  | SDropAssertion _ => "DropAssertion"
  end.

(** ** The renderer's configuration *)

Inductive PlaceHolderStyle : Type := Dollar | Question.

Record Renderer : Type := mkRenderer {
  _paramsMode : bool;
  _placeHolderStyle : PlaceHolderStyle
}.

(** [new Renderer(opts)]: absent options default to [false] and ['$']. *)
Definition newRenderer (paramsMode : option bool)
    (placeHolderStyle : option PlaceHolderStyle) : Renderer :=
  {| _paramsMode := match paramsMode with Some b => b | None => false end;
     _placeHolderStyle :=
       match placeHolderStyle with Some s => s | None => Dollar end |}.

Variable this : Renderer.

Definition renderIdent (ident : Ident) : string :=
  dquote ++ name ident ++ dquote.

Definition renderPlaceholder (n : nat) : string :=
  match _placeHolderStyle this with
  | Question => "?"
  | Dollar => "$" ++ length_toString n
  end.

Definition renderCustomExpr (dt : ExprExt) : Render string :=
  throw "Custom expression encountered, please extend the renderer".

Definition renderDataType (dt : DataType) : Render string :=
  throw "Unimplemented".

Definition renderCustomTable (dt : TableExt) : Render string :=
  throw "Custom table encountered, please extend the renderer".

(** [literal._tag === 'NullLit' ? null : literal.val], the payload as a
    JavaScript value. *)
Definition literal_val (literal : Literal) : any :=
  match literal with
  | NullLit => JNull
  | NumLit (inl n) => JNumber n
  | NumLit (inr s) => JString s
  | StringLit s => JString s
  | BoolLit b => JBoolean b
  | DateLit d => JDate d
  | CustomLit v => v
  end.

Definition renderLiteral (literal : Literal) : Render string :=
  if _paramsMode this then
    let val := literal_val literal in
    l <- push val ;;
    ret (renderPlaceholder l)
  else
    match literal with
    | NumLit v =>
        ret match v with inr s => s | inl n => Number_toString n end
    | StringLit val => ret ("'" ++ val ++ "'")
    | BoolLit val => ret (if val then "TRUE" else "FALSE")
    | NullLit => ret "NULL"
    | DateLit val =>
        match toISOString val with
        | Some iso => ret ("DATE '" ++ iso ++ "'")
        | None => throw "Invalid time value"
        end
    | CustomLit _ =>
        throw "Custom literal encountered, please extend the renderer"
    end.

(** [x === null ? '' : f(x)] for a nullable field rendered by [f]. *)
Definition ifPresent {A} (x : option A) (f : A -> Render string)
    : Render string :=
  match x with
  | None => ret ""
  | Some a => f a
  end.

Definition isEmpty (s : string) : bool :=
  match s with EmptyString => true | _ => false end.

Fixpoint renderExpr (expr : Expr) : Render string :=
  match expr with
  | EIdent ident => ret (renderIdent ident)
  | Wildcard => ret "*"
  | QualifiedWildcard qualifiers =>
      qs <- mapM renderExpr qualifiers ;;
      let qualifiers := join "." qs in
      ret (if isEmpty qualifiers then "*" else qualifiers ++ ".*")
  | CompoundIdentifier idChain =>
      parts <- mapM renderExpr idChain ;;
      ret (join "." parts)
  | Between e negated low high =>
      operand <- renderExpr e ;;
      let not := if negated then " NOT" else "" in
      low <- renderExpr low ;;
      high <- renderExpr high ;;
      ret (operand ++ not ++ " BETWEEN " ++ low ++ " AND " ++ high)
  | BinaryApp lhs op rhs =>
      lhs <- renderExpr lhs ;;
      rhs <- renderExpr rhs ;;
      ret (lhs ++ " " ++ op ++ " " ++ rhs)
  | Case e cases elseCase =>
      operand <- ifPresent e (fun e => s <- renderExpr e ;; ret (" " ++ s)) ;;
      cases <- mapM (fun c =>
                 condition <- renderExpr (fst c) ;;
                 result <- renderExpr (snd c) ;;
                 ret ("WHEN " ++ condition ++ " THEN " ++ result)) cases ;;
      else_ <- ifPresent elseCase
                 (fun e => s <- renderExpr e ;; ret ("ELSE " ++ s ++ " ")) ;;
      ret ("CASE" ++ operand ++ " " ++ join " " cases ++ " " ++ else_ ++ "END")
  | Cast e dataType =>
      e <- renderExpr e ;;
      dt <- renderDataType dataType ;;
      ret ("CAST(" ++ e ++ " AS " ++ dt ++ ")")
  | Collate e collation =>
      e <- renderExpr e ;;
      collation <- renderExpr collation ;;
      ret (e ++ " COLLATE " ++ collation)
  | Exists subQuery =>
      q <- renderQuery subQuery ;;
      ret ("EXISTS(" ++ q ++ ")")
  | Extract field source =>
      source <- renderExpr source ;;
      ret ("EXTRACT(" ++ field ++ " FROM " ++ source ++ ")")
  | FunctionApp fname args =>
      args <- mapM renderExpr args ;;
      let args := join ", " args in
      fname <- renderExpr fname ;;
      ret (fname ++ "(" ++ args ++ ")")
  | IsNull negated e =>
      let not := if negated then " NOT" else "" in
      e <- renderExpr e ;;
      ret (e ++ " IS" ++ not ++ " NULL")
  | InList negated e list_ =>
      let not := if negated then " NOT" else "" in
      items <- mapM renderExpr list_ ;;
      let list_ := join ", " items in
      e <- renderExpr e ;;
      ret (e ++ not ++ " IN (" ++ list_ ++ ")")
  | InSubQuery negated e subQuery =>
      let not := if negated then " NOT" else "" in
      sub <- renderQuery subQuery ;;
      e <- renderExpr e ;;
      ret (e ++ not ++ " IN (" ++ sub ++ ")")
  | Lit literal => renderLiteral literal
  | Parenthesized e =>
      e <- renderExpr e ;;
      ret ("(" ++ e ++ ")")
  | SubQuery query =>
      q <- renderQuery query ;;
      ret ("(" ++ q ++ ")")
  | UnaryApp op e =>
      e <- renderExpr e ;;
      ret (op ++ e)
  | ExprExtension val => renderCustomExpr val
  end

with renderQuery (query : Query) : Render string :=
  match query with
  | mkQuery commonTableExprs selection unions ordering limit offset =>
      ctes <-
        match commonTableExprs with
        | [] => ret ""
        | _ =>
            subs <- mapM (fun cte =>
                match cte with
                | mkCommonTableExpr alias_name alias_columns cte_query =>
                    let cols :=
                      match alias_columns with
                      | [] => ""
                      | _ => " (" ++ join ", " (map renderIdent alias_columns)
                               ++ ")"
                      end in
                    q <- renderQuery cte_query ;;
                    ret (renderIdent alias_name ++ cols ++ " AS (" ++ q ++ ")")
                end) commonTableExprs ;;
            ret ("WITH " ++ join ", " subs ++ " ")
        end ;;
      limit <- ifPresent limit
                 (fun e => s <- renderExpr e ;; ret (" LIMIT " ++ s)) ;;
      offset <- ifPresent offset
                  (fun e => s <- renderExpr e ;; ret (" OFFSET " ++ s)) ;;
      ordering <-
        match ordering with
        | [] => ret ""
        | _ =>
            orders <- mapM (fun order =>
                match order with
                | mkOrderingExpr e ord nullHandling =>
                    let asc :=
                      match ord with None => "" | Some o => " " ++ o end in
                    let nullHandling :=
                      match nullHandling with
                      | None => ""
                      | Some n => " " ++ n
                      end in
                    e <- renderExpr e ;;
                    ret (e ++ asc ++ nullHandling)
                end) ordering ;;
            ret (" ORDER BY " ++ join ", " orders)
        end ;;
      selection <- renderSelect selection ;;
      unions <-
        match unions with
        | [] => ret ""
        | _ =>
            us <- mapM (fun u =>
                match u with
                | mkSetOp func all select =>
                    let all := if all then " ALL" else "" in
                    s <- renderSelect select ;;
                    ret (" " ++ func ++ all ++ " " ++ s)
                end) unions ;;
            ret (" " ++ join " " us)
        end ;;
      ret (ctes ++ selection ++ unions ++ ordering ++ limit ++ offset)
  end

with renderSelect (select : Select) : Render string :=
  match select with
  | mkSelect selections from where_ groupBy having =>
      sels <- mapM (fun s =>
          match s with
          | AnonymousSelection selection => renderExpr selection
          | AliasedSelection selection alias =>
              e <- renderExpr selection ;;
              ret (e ++ " AS " ++ renderIdent alias)
          end) selections ;;
      let selections := join ", " sels in
      where_ <- ifPresent where_
                  (fun e => s <- renderExpr e ;; ret (" WHERE " ++ s)) ;;
      groupBy <-
        match groupBy with
        | [] => ret ""
        | _ =>
            gs <- mapM renderExpr groupBy ;;
            ret (" GROUP BY" ++ join ", " gs)
        end ;;
      having <- ifPresent having
                  (fun e => s <- renderExpr e ;; ret (" HAVING" ++ s)) ;;
      table <-
        match from with
        | None => ret ""
        | Some (mkJoinedTable table joins) =>
            initTable <- renderTable table ;;
            joins <- mapM (fun j =>
                match j with
                | mkJoin kind jtable on =>
                    t <- renderTable jtable ;;
                    o <- renderExpr on ;;
                    ret (" " ++ kind ++ " JOIN " ++ t ++ " ON " ++ o)
                end) joins ;;
            ret (" FROM " ++ initTable ++ join "" joins)
        end ;;
      ret ("SELECT " ++ selections ++ table ++ where_ ++ groupBy ++ having)
  end

with renderTable (table : Table) : Render string :=
  match table with
  | BasicTable tname => ret (renderIdent tname)
  | DerivedTable subQuery alias =>
      q <- renderQuery subQuery ;;
      ret ("(" ++ q ++ ") AS " ++ renderIdent alias)
  | FunctionTable func alias =>
      f <- renderExpr func ;;
      ret ("(" ++ f ++ ") AS " ++ renderIdent alias)
  | TableExtension val => renderCustomTable val
  end.

Definition renderCell (c : Cell) : Render string :=
  match c with
  | DefaultValue => ret "DEFAULT"
  | CellExpr e => renderExpr e
  end.

Definition renderInsert (insert : Insert) : Render string :=
  match insert with
  | mkInsert table columns values =>
      let columns :=
        match columns with
        | [] => ""
        | _ => " (" ++ join ", " (map renderIdent columns) ++ ")"
        end in
      values <-
        match values with
        | None => throw "Invalid Insert. Insert must have VALUES"
        | Some DefaultValues => ret "DEFAULT VALUES"
        | Some (ValuesConstructor rows) =>
            rows <- mapM (fun r =>
                      vals <- mapM renderCell r ;;
                      ret ("(" ++ join ", " vals ++ ")")) rows ;;
            ret ("VALUES " ++ join ", " rows)
        | Some (ValuesQuery query) => renderQuery query
        end ;;
      ret ("INSERT INTO " ++ renderIdent table ++ columns ++ " " ++ values)
  end.

Definition renderAssignment (a : Ident * Cell) : Render string :=
  match a with
  | (name, DefaultValue) => ret (renderIdent name ++ " = DEFAULT")
  | (name, CellExpr value) =>
      v <- renderExpr value ;;
      ret (renderIdent name ++ " = " ++ v)
  end.

Definition renderUpdate (update : Update) : Render string :=
  match update with
  | mkUpdate table assignments where_ =>
      sets <- mapM renderAssignment assignments ;;
      let sets := join ", " sets in
      where_ <- ifPresent where_
                  (fun e => s <- renderExpr e ;; ret (" WHERE " ++ s)) ;;
      ret ("UPDATE " ++ renderIdent table ++ " SET " ++ sets ++ where_)
  end.

Definition renderUpdatePositioned (update : UpdatePositioned)
    : Render string :=
  match update with
  | mkUpdatePositioned table assignments cursor =>
      sets <- mapM renderAssignment assignments ;;
      let sets := join ", " sets in
      ret ("UPDATE " ++ renderIdent table ++ " SET " ++ sets
             ++ " WHERE CURRENT OF " ++ renderIdent cursor)
  end.

Definition renderDelete (del : Delete) : Render string :=
  match del with
  | mkDelete table where_ =>
      where_ <- ifPresent where_
                  (fun e => s <- renderExpr e ;; ret (" WHERE " ++ s)) ;;
      ret ("DELETE FROM " ++ renderIdent table ++ where_)
  end.

Definition renderDeletePositioned (del : DeletePositioned) : Render string :=
  match del with
  | mkDeletePositioned table cursor =>
      ret ("DELETE FROM " ++ renderIdent table ++ " WHERE CURRENT OF "
             ++ renderIdent cursor)
  end.

(** The callback of [schema.definitions.map] returns the function object
    [this.renderDomainDefinition] (it does not call it) or [null]; [join]
    writes a function as its source text and [null] as the empty string. *)
Definition renderCreateSchema (schema : CreateSchema) : Render string :=
  match schema with
  | mkCreateSchema catalog sname authorization characterSet definitions =>
      let name :=
        let r := "" in
        let r :=
          match catalog with
          | Some c => r ++ renderIdent c ++ "."
          | None => r
          end in
        match sname with
        | Some n => r ++ renderIdent n ++ " "
        | None => r
        end in
      let auth :=
        match authorization with
        | Some a => "AUTHORIZATION " ++ renderIdent a ++ " "
        | None => ""
        end in
      let charSet :=
        match characterSet with
        | Some c => "DEFAULT CHARACTER SET " ++ renderIdent c ++ " "
        | None => ""
        end in
      let defs :=
        join " " (map (fun def =>
                         match def with
                         | ElemDomainDefinition _ =>
                             function_toString_renderDomainDefinition
                         | ElemTableDefinition _ => ""
                         | ElemViewDefinition _ => ""
                         | ElemGrantStatement _ => ""
                         | ElemAssertionDefinition _ => ""
                         end) definitions) in
      let defs := if isEmpty defs then defs else " " ++ defs in
      ret ("CREATE SCHEMA " ++ name ++ auth ++ charSet ++ defs)
  end.

Definition renderDefaultOption (opt : DefaultOption) : Render string :=
  val <-
    match opt with
    | DefaultLit literal => renderLiteral literal
    | CurrentDateDefault => ret "CURRENT_DATE"
    | CurrentTime precision =>
        precision <- ifPresent precision
          (fun p => s <- renderLiteral p ;; ret (" (" ++ s ++ ")")) ;;
        ret ("CURRENT_TIME" ++ precision)
    | CurrentTimeStamp precision =>
        precision <- ifPresent precision
          (fun p => s <- renderLiteral p ;; ret (" (" ++ s ++ ")")) ;;
        ret ("CURRENT_TIMESTAMP" ++ precision)
    | UserDefault => ret "USER"
    | CurrentUserDefault => ret "CURRENT_USER"
    | SessionUserDefault => ret "SESSION_USER"
    | SystemUserDefault => ret "SYSTEM_USER"
    | NullDefault => ret "NULL"
    end ;;
  ret ("DEFAULT " ++ val).

Definition renderConstraintCheckTime (cct : ConstraintCheckTime) : string :=
  if deferrable cct && initiallyDeferred cct then
    "INITIALLY DEFERRED DEFERRABLE"
  else if deferrable cct then
    "INITIALLY IMMEDIATE DEFERRABLE"
  else if initiallyDeferred cct then
    "INITIALLY DEFERRED NOT DEFERRABLE"
  else
    "INITIALLY IMMEDIATE NOT DEFERRABLE".

(** [attrs !== null ? ' ' + renderConstraintCheckTime(attrs) : ''] *)
Definition renderAttributes (attrs : option ConstraintCheckTime) : string :=
  match attrs with
  | Some a => " " ++ renderConstraintCheckTime a
  | None => ""
  end.

Definition renderDomainConstraint (name : option Ident) (expr : Query)
    (attrs : option ConstraintCheckTime) : Render string :=
  let namePart :=
    match name with Some n => renderIdent n ++ " " | None => "" end in
  def <- renderQuery expr ;;
  let attributes := renderAttributes attrs in
  ret (namePart ++ def ++ attributes).

Definition renderDomainDefinition (def : DomainDefinition) : Render string :=
  match def with
  | mkDomainDefinition dname dataType default constraintName constraintExpr
      constraintAttributes collation =>
      defaultOption <- ifPresent default
        (fun d => s <- renderDefaultOption d ;; ret (" " ++ s)) ;;
      constraint <- ifPresent constraintExpr
        (fun e =>
           s <- renderDomainConstraint constraintName e constraintAttributes ;;
           ret (" " ++ s)) ;;
      let collation :=
        match collation with
        | Some c => " COLLATE " ++ renderIdent c
        | None => ""
        end in
      dt <- renderDataType dataType ;;
      ret ("CREATE DOMAIN " ++ renderIdent dname ++ " AS " ++ dt
             ++ defaultOption ++ constraint ++ collation)
  end.

Definition renderUniqueConstraint (constraint : UniqueConstraint) : string :=
  match constraint with
  | mkUniqueConstraint primaryKey columns =>
      let typ := if primaryKey then "PRIMARY KEY" else " UNIQUE" in
      let columns := join ", " (map renderIdent columns) in
      " " ++ typ ++ " (" ++ columns ++ ")"
  end.

Definition renderAction (action : ReferentialAction) : string :=
  match action with
  | Cascade => "CASCADE"
  | SetNull => "SET NULL"
  | SetDefault => "SET DEFAULT"
  | NoAction => "NO ACTION"
  end.

Definition renderReferenceConstraint (def : ReferenceConstraint) : string :=
  match def with
  | mkReferenceConstraint table columns matchType onUpdate onDelete =>
      let columns :=
        match columns with
        | None => ""
        | Some cs => " (" ++ join ", " (map renderIdent cs) ++ ")"
        end in
      let match_ :=
        match matchType with
        | Regular => ""
        | Full => " FULL"
        | Partial => " PARTIAL"
        end in
      let onUpdate :=
        match onUpdate with
        | Some a => " ON UPDATE" ++ renderAction a
        | None => ""
        end in
      let onDelete :=
        match onDelete with
        | Some a => " ON DELETE" ++ renderAction a
        | None => ""
        end in
      "REFERENCES " ++ renderIdent table ++ columns ++ match_ ++ onUpdate
        ++ onDelete
  end.

Definition renderCheckConstraint (def : CheckConstraint) : Render string :=
  match def with
  | mkCheckConstraint search =>
      q <- renderQuery search ;;
      ret ("CHECK " ++ q)
  end.

Definition renderColumnConstraint (def : ColumnConstraintDefinition)
    : Render string :=
  match def with
  | mkColumnConstraintDefinition cname constraint attributes =>
      cstr <-
        match constraint with
        | ColumnNotNull => ret " NOT NULL"
        | ColumnUnique c => ret (renderUniqueConstraint c)
        | ColumnReference c => ret (renderReferenceConstraint c)
        | ColumnCheck c => renderCheckConstraint c
        end ;;
      let namePart :=
        match cname with Some n => renderIdent n ++ " " | None => "" end in
      let attributes := renderAttributes attributes in
      ret (namePart ++ cstr ++ attributes)
  end.

Definition renderTableConstraint (def : TableConstraint) : Render string :=
  match def with
  | mkTableConstraint cname constraint checkTime =>
      let namePart :=
        match cname with Some n => renderIdent n ++ " " | None => "" end in
      constraint <-
        match constraint with
        | TableUnique c => ret (renderUniqueConstraint c)
        | TableReference c => ret (renderReferenceConstraint c)
        | TableCheck c => renderCheckConstraint c
        end ;;
      let attributes := renderAttributes checkTime in
      ret (namePart ++ constraint ++ attributes)
  end.

Definition renderColumnDefinition (def : ColumnDefinition) : Render string :=
  match def with
  | mkColumnDefinition cname type default constraints collation =>
      typ <-
        match type with
        | inl ident => ret (renderIdent ident)
        | inr dt => renderDataType dt
        end ;;
      defaultOption <- ifPresent default
        (fun d => s <- renderDefaultOption d ;; ret (" " ++ s)) ;;
      cs <- mapM renderColumnConstraint constraints ;;
      let constraints := join " " cs in
      let constraints :=
        if isEmpty constraints then constraints else " " ++ constraints in
      let collation :=
        match collation with
        | Some c => " COLLATE " ++ renderIdent c
        | None => ""
        end in
      ret (renderIdent cname ++ " " ++ typ ++ defaultOption ++ constraints
             ++ collation)
  end.

Definition renderTableDefinition (def : TableDefinition) : Render string :=
  match def with
  | mkTableDefinition tname mode columns constraints onCommit =>
      let locality :=
        if String.eqb mode "GlobalTemp" then " GLOBAL TEMPORARY"
        else if String.eqb mode "LocalTemp" then " Local TEMPORARY"
        else "" in
      columns <- mapM renderColumnDefinition columns ;;
      constraints <- mapM renderTableConstraint constraints ;;
      let els := "(" ++ join ", " (columns ++ constraints)%list ++ ")" in
      let onCommit :=
        match onCommit with
        | Some c =>
            if String.eqb c "Delete" then " ON COMMIT DELETE ROWS"
            else if String.eqb c "Preserve" then " ON COMMIT PRESERVE ROWS"
            else ""
        | None => ""
        end in
      ret ("CREATE" ++ locality ++ " TABLE " ++ renderIdent tname ++ " "
             ++ els ++ onCommit)
  end.

(** An array inside a template literal is written by [Array.toString], which
    joins with a comma. *)
Definition renderViewDefinition (def : ViewDefinition) : Render string :=
  match def with
  | mkViewDefinition vname columns query checkOption =>
      let columns :=
        match columns with
        | Some cs => " " ++ join "," (map renderIdent cs)
        | None => ""
        end in
      query <- renderQuery query ;;
      let checkOption :=
        match checkOption with
        | Some c =>
            if String.eqb c "Cascaded" then " WITH CASCADED CHECK OPTION"
            else if String.eqb c "Local" then " WITH LOCAL CHECK OPTION"
            else ""
        | None => ""
        end in
      ret ("CREATE VIEW " ++ renderIdent vname ++ columns ++ " AS " ++ query
             ++ checkOption)
  end.

(** [renderPrivilege] reads [this.renderIdent] for a column list.
    [receiver] is the [this] of the call: [renderGrantStatement] hands the
    method to [map] unbound, so it runs with [this] undefined and the read
    raises a TypeError. *)
Definition renderPrivilege (receiver : option Renderer) (def : Privilege)
    : Render string :=
  let renderColumns (columns : option (list Ident)) : Render string :=
    match columns with
    | None => ret ""
    | Some cs =>
        match receiver with
        | None =>
            throw
              "Cannot read properties of undefined (reading 'renderIdent')"
        | Some _ => ret (" (" ++ join ", " (map renderIdent cs) ++ ")")
        end
    end in
  match def with
  | SelectPrivilege => ret "SELECT"
  | DeletePrivilege => ret "DELETE"
  | InsertPrivilege columns =>
      columns <- renderColumns columns ;; ret ("INSERT" ++ columns)
  | UpdatePrivilege columns =>
      columns <- renderColumns columns ;; ret ("UPDATE" ++ columns)
  | ReferencePrivilege columns =>
      columns <- renderColumns columns ;; ret ("REFERENCES" ++ columns)
  | UsagePrivilege => ret "USAGE"
  end.

Definition renderGrantStatement (def : GrantStatement) : Render string :=
  match def with
  | mkGrantStatement privileges objectName objectType grantees grantOption =>
      let objectType :=
        match objectType with
        | OTable => "TABLE "
        | ODomain => "DOMAIN "
        | OCollation => "COLLATION "
        | OCharacterSet => "CHARACTER SET "
        | OTranslation => "TRANSLATION "
        end in
      let objectName := objectType ++ renderIdent objectName in
      privileges <-
        match privileges with
        | None => ret "ALL PRIVILEGES"
        | Some ps =>
            rs <- mapM (renderPrivilege None) ps ;; ret (join ", " rs)
        end ;;
      let grantees :=
        match grantees with
        | None => "PUBLIC"
        | Some gs => join ", " (map renderIdent gs)
        end in
      let option_ := if grantOption then " WITH GRANT OPTION" else "" in
      ret ("GRANT " ++ privileges ++ " ON " ++ objectName ++ " TO "
             ++ grantees ++ option_)
  end.

Definition renderAssertionDefinition (def : AssertionDefinition)
    : Render string :=
  match def with
  | mkAssertionDefinition aname search checkTime =>
      let attributes := renderAttributes checkTime in
      q <- renderQuery search ;;
      ret ("CREATE ASSERTION " ++ renderIdent aname ++ " CHECK (" ++ q ++ ")"
             ++ attributes)
  end.

(** [const exhaustive = (n: never): never => n]: at run time, the identity. *)
Definition exhaustive {A : Type} (n : A) : A := n.

(** What [renderStatement] hands back: the SQL text of a branch, or, from
    the fallback, the statement itself as [exhaustive] returns it. *)
Inductive Rendered : Type :=
| Text (sql : string)
| Unrendered (statement : Statement).

Definition text (m : Render string) : Render Rendered :=
  s <- m ;; ret (Text s).

Definition renderStatement (statement : Statement) : Render Rendered :=
  match statement with
  | SQuery s => text (renderQuery s)
  | SInsert s => text (renderInsert s)
  | SUpdate s => text (renderUpdate s)
  | SDelete s => text (renderDelete s)
  | SUpdatePositioned s => text (renderUpdatePositioned s)
  | SDeletePositioned s => text (renderDeletePositioned s)
  | SCreateSchema s => text (renderCreateSchema s)
  | STableDefinition s => text (renderTableDefinition s)
  | SViewDefinition s => text (renderViewDefinition s)
  | SGrantStatement s => text (renderGrantStatement s)
  | SDomainDefinition s => text (renderDomainDefinition s)
  | SAssertionDefinition s => text (renderAssertionDefinition s)
  | _ => ret (Unrendered (exhaustive statement))
  end.

(** ** What a rendered text is made of

    [rendersTo m s]: some call of the render method [m] returned [s]. The
    clauses below say which pieces a query or select text is made of, each
    piece being the text its own render call returned. *)

Definition rendersTo (m : Render string) (s : string) : Prop :=
  exists ps ps', m ps = (Return s, ps').

Definition cteText (cte : CommonTableExpr) (sub : string) : Prop :=
  match cte with
  | mkCommonTableExpr alias_name alias_columns cte_query =>
      exists q,
        rendersTo (renderQuery cte_query) q /\
        sub = renderIdent alias_name
                ++ match alias_columns with
                   | [] => ""
                   | _ => " (" ++ join ", " (map renderIdent alias_columns)
                            ++ ")"
                   end
                ++ " AS (" ++ q ++ ")"
  end.

Definition withClause (ctes : list CommonTableExpr) (w : string) : Prop :=
  match ctes with
  | [] => w = ""
  | _ => exists subs, Forall2 cteText ctes subs /\
                      w = "WITH " ++ join ", " subs ++ " "
  end.

(** One union entry: [lead], the set-operator keyword, [ALL] when flagged,
    a space, the rendered select. *)
Definition unionText (lead : string) (u : SetOp) (ut : string) : Prop :=
  match u with
  | mkSetOp func all select =>
      exists s,
        rendersTo (renderSelect select) s /\
        ut = lead ++ func ++ (if all then " ALL" else "") ++ " " ++ s
  end.

Definition orderText (order : OrderingExpr) (ot : string) : Prop :=
  match order with
  | mkOrderingExpr e ord nullHandling =>
      exists s,
        rendersTo (renderExpr e) s /\
        ot = s ++ match ord with None => "" | Some o => " " ++ o end
               ++ match nullHandling with None => "" | Some n => " " ++ n end
  end.

Definition orderByClause (ordering : list OrderingExpr) (o : string) : Prop :=
  match ordering with
  | [] => o = ""
  | _ => exists orders, Forall2 orderText ordering orders /\
                        o = " ORDER BY " ++ join ", " orders
  end.

(** A nullable expression behind a keyword: nothing when absent. *)
Definition optionalClause (keyword : string) (e : option Expr) (c : string)
    : Prop :=
  match e with
  | None => c = ""
  | Some e => exists s, rendersTo (renderExpr e) s /\ c = keyword ++ s
  end.

(** The text of a query, with [lead] in front of every union entry. *)
Definition queryText (lead : string) (query : Query) (t : string) : Prop :=
  match query with
  | mkQuery ctes selection unions ordering limit offset =>
      exists w s us o l f,
        withClause ctes w /\
        rendersTo (renderSelect selection) s /\
        Forall2 (unionText lead) unions us /\
        orderByClause ordering o /\
        optionalClause " LIMIT " limit l /\
        optionalClause " OFFSET " offset f /\
        t = w ++ s ++ String.concat "" us ++ o ++ l ++ f
  end.

Definition selectionText (sel : Selection) (st : string) : Prop :=
  match sel with
  | AnonymousSelection e => rendersTo (renderExpr e) st
  | AliasedSelection e alias =>
      exists s, rendersTo (renderExpr e) s /\
                st = s ++ " AS " ++ renderIdent alias
  end.

Definition joinText (j : Join) (jt : string) : Prop :=
  match j with
  | mkJoin kind jtable on =>
      exists t o,
        rendersTo (renderTable jtable) t /\ rendersTo (renderExpr on) o /\
        jt = " " ++ kind ++ " JOIN " ++ t ++ " ON " ++ o
  end.

Definition fromClause (from : option JoinedTable) (f : string) : Prop :=
  match from with
  | None => f = ""
  | Some (mkJoinedTable table joins) =>
      exists t js,
        rendersTo (renderTable table) t /\ Forall2 joinText joins js /\
        f = " FROM " ++ t ++ join "" js
  end.

(** The group-by expressions, each rendered, joined by a comma and a space. *)
Definition groupByList (groupBy : list Expr) (g : string) : Prop :=
  exists gs, Forall2 (fun e s => rendersTo (renderExpr e) s) groupBy gs /\
             g = join ", " gs.

Definition reachesFallback (statement : Statement) (ps : list any) : Prop :=
  fst (renderStatement statement ps) = Return (Unrendered statement).

End Renderer.

(** The variants the spec lists in the [Statement] family, by the names
    the spec gives them. *)
Definition namedVariants : list string :=
  ["Query"; "Insert"; "Update"; "Delete"; "UpdatePositioned";
   "DeletePositioned"; "TableDefinition"; "ViewDefinition";
   "DomainDefinition"; "AssertionDefinition"; "GrantStatement";
   "RevokeStatement"; "DropTable"; "DropView"; "DropDomain";
   "DropAssertion"].

(** The variants the statement switch has a case for. *)
Definition switchCases : list string :=
  ["Query"; "Insert"; "Update"; "Delete"; "UpdatePositioned";
   "DeletePositioned"; "CreateSchema"; "TableDefinition"; "ViewDefinition";
   "GrantStatement"; "DomainDefinition"; "AssertionDefinition"].

(** The name the spec's list has for a tag: the revoke statement, tagged
    [RevokePrivilege], is listed as RevokeStatement. *)
Definition specName (tag : string) : string :=
  if String.eqb tag "RevokePrivilege" then "RevokeStatement" else tag.

(** The named variants the switch has no case for, by their tags. *)
Definition unrenderedVariants : list string :=
  ["RevokePrivilege"; "DropTable"; "DropView"; "DropDomain"; "DropAssertion"].

(** ** A concrete host

    A valid date given by its ISO-8601 text, the invalid date as [None]; no
    extension payloads. *)
#[export] Instance SampleHost : Host := {|
  Date := option string;
  toISOString := fun d => d;
  object := unit;
  ExprExt := unit;
  TableExt := unit;
  DataType := unit;
  function_toString_renderDomainDefinition := "renderDomainDefinition(def) { }"
|}.

Definition inlineRenderer : Renderer := newRenderer None None.
Definition dollarRenderer : Renderer := newRenderer (Some true) None.
Definition questionRenderer : Renderer :=
  newRenderer (Some true) (Some Question).

Definition num (z : Z) : Expr := Lit (NumLit (inl (integer z))).

(** [b.insertInto('employee').values({id: 5, name: 'Charlotte', salary: 5000,
    department_id: 55})] of test/insert.ts. *)
Definition employeeInsert : Insert :=
  mkInsert (mkIdent "employee")
    [mkIdent "id"; mkIdent "name"; mkIdent "salary"; mkIdent "department_id"]
    (Some (ValuesConstructor
       [[CellExpr (num 5); CellExpr (Lit (StringLit "Charlotte"));
         CellExpr (num 5000); CellExpr (num 55)]])).

Definition selectOf (selections : list Expr) : Select :=
  mkSelect (map AnonymousSelection selections) None None [] None.

(** [SELECT 5 LIMIT 10] *)
Definition selectFiveLimitTen : Query :=
  mkQuery [] (selectOf [num 5]) [] [] (Some (num 10)) None.

(** [SELECT * UNION SELECT *] *)
Definition starUnionStar : Query :=
  mkQuery [] (selectOf [Wildcard]) [mkSetOp "UNION" false (selectOf [Wildcard])]
    [] None None.

(** A select from table t, grouped by column a, with column b as the
    having condition. *)
Definition groupedSelect : Select :=
  mkSelect [AnonymousSelection Wildcard]
    (Some (mkJoinedTable (BasicTable (mkIdent "t")) []))
    None [EIdent (mkIdent "a")] (Some (EIdent (mkIdent "b"))).

(** A select of a date literal that holds the invalid date. *)
Definition selectInvalidDate : Query :=
  mkQuery [] (selectOf [Lit (DateLit (@None string))]) [] [] None None.

Definition dropEmployee : Statement :=
  SDropTable (mkDropTable (mkIdent "employee") DropCascade).

(** ** Substituting parameters back

    The decoration inline rendering gives a value (an object and the
    invalid date have none and are written as nothing), and the
    substitution of the buffer into the [?] placeholders of a text, in
    buffer order. *)
Definition inlineValue {host : Host} (v : any) : string :=
  match v with
  | JNull => "NULL"
  | JNumber n => Number_toString n
  | JString s => "'" ++ s ++ "'"
  | JBoolean b => if b then "TRUE" else "FALSE"
  | JDate d =>
      match toISOString d with
      | Some iso => "DATE '" ++ iso ++ "'"
      | None => ""
      end
  | JObject _ => ""
  end.

Fixpoint substituteInOrder {host : Host} (text : string) (params : list any)
    : string :=
  match text with
  | EmptyString => EmptyString
  | String c rest =>
      if Ascii.eqb c "?" then
        match params with
        | v :: vs => inlineValue v ++ substituteInOrder rest vs
        | [] => String c (substituteInOrder rest [])
        end
      else String c (substituteInOrder rest params)
  end.

(** * What the render methods do to the buffer and when they return

    The predicates and tree functions the general properties are stated
    with. *)

Section Analysis.

Context {host : Host}.

(** A render call only appends to the buffer, whatever its outcome. *)
Definition appendsOnly {A} (m : Render A) : Prop :=
  forall ps, exists pushed, snd (m ps) = (ps ++ pushed)%list.

(** A render call has one outcome, whatever the buffer, and leaves the
    buffer as it found it. *)
Definition bufferFree {A} (m : Render A) : Prop :=
  exists outcome, forall ps, m ps = (outcome, ps).

(** A render call returns exactly when [b] holds, whatever the buffer. *)
Definition returnsWhen {A} (m : Render A) (b : bool) : Prop :=
  forall ps, (exists a ps', m ps = (Return a, ps')) <-> b = true.

(** When a render call returns, the buffer has grown by the values of
    [literals], in this order. *)
Definition pushesOnReturn {A} (m : Render A) (literals : list Literal)
    : Prop :=
  forall ps a ps',
    m ps = (Return a, ps') ->
    ps' = (ps ++ map literal_val literals)%list.

Definition whenPresent {A} (P : A -> Prop) (x : option A) : Prop :=
  match x with
  | Some a => P a
  | None => True
  end.

(** The children of a node satisfy the predicates: the premise of the
    induction on the syntax tree. *)
Definition exprChildren (PE : Expr -> Prop) (PQ : Query -> Prop)
    (expr : Expr) : Prop :=
  match expr with
  | EIdent _ | Wildcard | Lit _ | ExprExtension _ => True
  | QualifiedWildcard es | CompoundIdentifier es => Forall PE es
  | Between e _ low high => PE e /\ PE low /\ PE high
  | BinaryApp lhs _ rhs => PE lhs /\ PE rhs
  | Case e cases elseCase =>
      whenPresent PE e
      /\ Forall (fun c => PE (fst c) /\ PE (snd c)) cases
      /\ whenPresent PE elseCase
  | Cast e _ | Extract _ e | IsNull _ e | Parenthesized e | UnaryApp _ e =>
      PE e
  | Collate e collation => PE e /\ PE collation
  | Exists q | SubQuery q => PQ q
  | FunctionApp fname args => PE fname /\ Forall PE args
  | InList _ e es => PE e /\ Forall PE es
  | InSubQuery _ e q => PE e /\ PQ q
  end.

Definition cteQuery (cte : CommonTableExpr) : Query :=
  match cte with mkCommonTableExpr _ _ q => q end.

Definition setOpSelect (u : SetOp) : Select :=
  match u with mkSetOp _ _ s => s end.

Definition orderingExpr (o : OrderingExpr) : Expr :=
  match o with mkOrderingExpr e _ _ => e end.

Definition selectionExpr (s : Selection) : Expr :=
  match s with
  | AnonymousSelection e => e
  | AliasedSelection e _ => e
  end.

Definition queryChildren (PE : Expr -> Prop) (PQ : Query -> Prop)
    (PS : Select -> Prop) (query : Query) : Prop :=
  match query with
  | mkQuery ctes selection unions ordering limit offset =>
      Forall (fun c => PQ (cteQuery c)) ctes
      /\ PS selection
      /\ Forall (fun u => PS (setOpSelect u)) unions
      /\ Forall (fun o => PE (orderingExpr o)) ordering
      /\ whenPresent PE limit
      /\ whenPresent PE offset
  end.

Definition selectChildren (PE : Expr -> Prop) (PT : Table -> Prop)
    (select : Select) : Prop :=
  match select with
  | mkSelect selections from where_ groupBy having =>
      Forall (fun s => PE (selectionExpr s)) selections
      /\ match from with
         | None => True
         | Some (mkJoinedTable table joins) =>
             PT table
             /\ Forall (fun j => match j with
                                 | mkJoin _ jtable on => PT jtable /\ PE on
                                 end) joins
         end
      /\ whenPresent PE where_
      /\ Forall PE groupBy
      /\ whenPresent PE having
  end.

Definition tableChildren (PE : Expr -> Prop) (PQ : Query -> Prop)
    (table : Table) : Prop :=
  match table with
  | BasicTable _ | TableExtension _ => True
  | DerivedTable q _ => PQ q
  | FunctionTable f _ => PE f
  end.

(** ** The supported fragment

    [inline] is the negation of [_paramsMode]. A node is supported when no
    render method throws on it: no cast (the base renderer has no data
    types), no extension node, and inline no custom literal and no invalid
    date. *)
Variable inline : bool.

Definition isValidDate (d : Date) : bool :=
  match toISOString d with
  | Some _ => true
  | None => false
  end.

Definition supportedLiteral (literal : Literal) : bool :=
  match literal with
  | CustomLit _ => negb inline
  | DateLit d => negb inline || isValidDate d
  | _ => true
  end.

Definition whenSome {A} (f : A -> bool) (x : option A) : bool :=
  match x with
  | Some a => f a
  | None => true
  end.

Fixpoint supportedExpr (expr : Expr) : bool :=
  match expr with
  | EIdent _ | Wildcard => true
  | QualifiedWildcard es | CompoundIdentifier es => forallb supportedExpr es
  | Between e _ low high =>
      supportedExpr e && supportedExpr low && supportedExpr high
  | BinaryApp lhs _ rhs => supportedExpr lhs && supportedExpr rhs
  | Case e cases elseCase =>
      whenSome supportedExpr e
      && forallb (fun c => supportedExpr (fst c) && supportedExpr (snd c))
           cases
      && whenSome supportedExpr elseCase
  | Cast _ _ => false
  | Collate e collation => supportedExpr e && supportedExpr collation
  | Exists q | SubQuery q => supportedQuery q
  | Extract _ e | IsNull _ e | Parenthesized e | UnaryApp _ e =>
      supportedExpr e
  | FunctionApp fname args =>
      forallb supportedExpr args && supportedExpr fname
  | InList _ e es => forallb supportedExpr es && supportedExpr e
  | InSubQuery _ e q => supportedQuery q && supportedExpr e
  | Lit literal => supportedLiteral literal
  | ExprExtension _ => false
  end

with supportedQuery (query : Query) : bool :=
  match query with
  | mkQuery ctes selection unions ordering limit offset =>
      forallb (fun c => match c with
                        | mkCommonTableExpr _ _ q => supportedQuery q
                        end) ctes
      && whenSome supportedExpr limit
      && whenSome supportedExpr offset
      && forallb (fun o => match o with
                           | mkOrderingExpr e _ _ => supportedExpr e
                           end) ordering
      && supportedSelect selection
      && forallb (fun u => match u with
                           | mkSetOp _ _ s => supportedSelect s
                           end) unions
  end

with supportedSelect (select : Select) : bool :=
  match select with
  | mkSelect selections from where_ groupBy having =>
      forallb (fun s => match s with
                        | AnonymousSelection e => supportedExpr e
                        | AliasedSelection e _ => supportedExpr e
                        end) selections
      && whenSome supportedExpr where_
      && forallb supportedExpr groupBy
      && whenSome supportedExpr having
      && match from with
         | None => true
         | Some (mkJoinedTable table joins) =>
             supportedTable table
             && forallb (fun j => match j with
                                  | mkJoin _ jtable on =>
                                      supportedTable jtable && supportedExpr on
                                  end) joins
         end
  end

with supportedTable (table : Table) : bool :=
  match table with
  | BasicTable _ => true
  | DerivedTable q _ => supportedQuery q
  | FunctionTable f _ => supportedExpr f
  | TableExtension _ => false
  end.

Definition supportedCell (c : Cell) : bool :=
  match c with
  | DefaultValue => true
  | CellExpr e => supportedExpr e
  end.

Definition supportedInsert (insert : Insert) : bool :=
  match insert with
  | mkInsert _ _ None => false
  | mkInsert _ _ (Some DefaultValues) => true
  | mkInsert _ _ (Some (ValuesConstructor rows)) =>
      forallb (forallb supportedCell) rows
  | mkInsert _ _ (Some (ValuesQuery q)) => supportedQuery q
  end.

Definition supportedAssignments (assignments : list (Ident * Cell)) : bool :=
  forallb (fun a => supportedCell (snd a)) assignments.

Definition supportedDefaultOption (opt : DefaultOption) : bool :=
  match opt with
  | DefaultLit literal => supportedLiteral literal
  | CurrentTime precision | CurrentTimeStamp precision =>
      whenSome supportedLiteral precision
  | _ => true
  end.

Definition supportedCheck (c : CheckConstraint) : bool :=
  match c with mkCheckConstraint search => supportedQuery search end.

Definition supportedColumnConstraint (def : ColumnConstraintDefinition)
    : bool :=
  match def with
  | mkColumnConstraintDefinition _ (ColumnCheck c) _ => supportedCheck c
  | _ => true
  end.

Definition supportedTableConstraint (def : TableConstraint) : bool :=
  match def with
  | mkTableConstraint _ (TableCheck c) _ => supportedCheck c
  | _ => true
  end.

Definition supportedColumnDefinition (def : ColumnDefinition) : bool :=
  match def with
  | mkColumnDefinition _ type default constraints _ =>
      match type with inl _ => true | inr _ => false end
      && whenSome supportedDefaultOption default
      && forallb supportedColumnConstraint constraints
  end.

Definition hasColumns (p : Privilege) : bool :=
  match p with
  | InsertPrivilege (Some _) | UpdatePrivilege (Some _)
  | ReferencePrivilege (Some _) => true
  | _ => false
  end.

Definition supportedGrant (def : GrantStatement) : bool :=
  match def with
  | mkGrantStatement None _ _ _ _ => true
  | mkGrantStatement (Some privileges) _ _ _ _ =>
      forallb (fun p => negb (hasColumns p)) privileges
  end.

(** The statements [renderStatement] returns SQL text for. *)
Definition supportedStatement (statement : Statement) : bool :=
  match statement with
  | SQuery q => supportedQuery q
  | SInsert i => supportedInsert i
  | SUpdate (mkUpdate _ assignments where_) =>
      supportedAssignments assignments && whenSome supportedExpr where_
  | SDelete (mkDelete _ where_) => whenSome supportedExpr where_
  | SUpdatePositioned (mkUpdatePositioned _ assignments _) =>
      supportedAssignments assignments
  | SDeletePositioned _ => true
  | SCreateSchema _ => true
  | STableDefinition (mkTableDefinition _ _ columns constraints _) =>
      forallb supportedColumnDefinition columns
      && forallb supportedTableConstraint constraints
  | SViewDefinition (mkViewDefinition _ _ query _) => supportedQuery query
  | SGrantStatement g => supportedGrant g
  | SDomainDefinition _ => false
  | SAssertionDefinition (mkAssertionDefinition _ search _) =>
      supportedQuery search
  | SRevokePrivilege _ | SDropTable _ | SDropView _ | SDropDomain _
  | SDropAssertion _ => false
  end.

End Analysis.

(** The four render methods of the syntax tree return exactly on the
    supported fragment of the renderer's mode. *)
Definition returnsE {host : Host} (this : Renderer) (e : Expr) : Prop :=
  returnsWhen (renderExpr this e) (supportedExpr (negb (_paramsMode this)) e).

Definition returnsQ {host : Host} (this : Renderer) (q : Query) : Prop :=
  returnsWhen (renderQuery this q)
    (supportedQuery (negb (_paramsMode this)) q).

Definition returnsS {host : Host} (this : Renderer) (s : Select) : Prop :=
  returnsWhen (renderSelect this s)
    (supportedSelect (negb (_paramsMode this)) s).

Definition returnsT {host : Host} (this : Renderer) (t : Table) : Prop :=
  returnsWhen (renderTable this t)
    (supportedTable (negb (_paramsMode this)) t).

(** * The literals a rendering pushes

    The literals of a tree in the order the render methods reach them: a
    query's limit, offset and ordering before its selection and unions, a
    select's FROM clause last, the arguments of a function application and
    the list or subquery of an IN before the expression in front of them. *)

Section Pushed.

Context {host : Host}.

Definition pushedWhen {A} (f : A -> list Literal) (x : option A)
    : list Literal :=
  match x with
  | Some a => f a
  | None => []
  end.

Fixpoint pushedExpr (expr : Expr) : list Literal :=
  match expr with
  | EIdent _ | Wildcard | ExprExtension _ => []
  | QualifiedWildcard es | CompoundIdentifier es => flat_map pushedExpr es
  | Between e _ low high =>
      (pushedExpr e ++ pushedExpr low ++ pushedExpr high)%list
  | BinaryApp lhs _ rhs => (pushedExpr lhs ++ pushedExpr rhs)%list
  | Case e cases elseCase =>
      (pushedWhen pushedExpr e
       ++ flat_map (fun c => pushedExpr (fst c) ++ pushedExpr (snd c)) cases
       ++ pushedWhen pushedExpr elseCase)%list
  | Cast e _ | Extract _ e | IsNull _ e | Parenthesized e | UnaryApp _ e =>
      pushedExpr e
  | Collate e collation => (pushedExpr e ++ pushedExpr collation)%list
  | Exists q | SubQuery q => pushedQuery q
  | FunctionApp fname args =>
      (flat_map pushedExpr args ++ pushedExpr fname)%list
  | InList _ e es => (flat_map pushedExpr es ++ pushedExpr e)%list
  | InSubQuery _ e q => (pushedQuery q ++ pushedExpr e)%list
  | Lit literal => [literal]
  end

with pushedQuery (query : Query) : list Literal :=
  match query with
  | mkQuery ctes selection unions ordering limit offset =>
      (flat_map (fun c => match c with
                          | mkCommonTableExpr _ _ q => pushedQuery q
                          end) ctes
       ++ pushedWhen pushedExpr limit
       ++ pushedWhen pushedExpr offset
       ++ flat_map (fun o => match o with
                             | mkOrderingExpr e _ _ => pushedExpr e
                             end) ordering
       ++ pushedSelect selection
       ++ flat_map (fun u => match u with
                             | mkSetOp _ _ s => pushedSelect s
                             end) unions)%list
  end

with pushedSelect (select : Select) : list Literal :=
  match select with
  | mkSelect selections from where_ groupBy having =>
      (flat_map (fun s => match s with
                          | AnonymousSelection e => pushedExpr e
                          | AliasedSelection e _ => pushedExpr e
                          end) selections
       ++ pushedWhen pushedExpr where_
       ++ flat_map pushedExpr groupBy
       ++ pushedWhen pushedExpr having
       ++ match from with
          | None => []
          | Some (mkJoinedTable table joins) =>
              pushedTable table
              ++ flat_map (fun j => match j with
                                    | mkJoin _ jtable on =>
                                        pushedTable jtable ++ pushedExpr on
                                    end) joins
          end)%list
  end

with pushedTable (table : Table) : list Literal :=
  match table with
  | BasicTable _ | TableExtension _ => []
  | DerivedTable q _ => pushedQuery q
  | FunctionTable f _ => pushedExpr f
  end.

Definition pushedCell (c : Cell) : list Literal :=
  match c with
  | DefaultValue => []
  | CellExpr e => pushedExpr e
  end.

Definition pushedAssignments (assignments : list (Ident * Cell))
    : list Literal :=
  flat_map (fun a => pushedCell (snd a)) assignments.

Definition pushedDefaultOption (opt : DefaultOption) : list Literal :=
  match opt with
  | DefaultLit literal => [literal]
  | CurrentTime precision | CurrentTimeStamp precision =>
      pushedWhen (fun p => [p]) precision
  | _ => []
  end.

Definition pushedCheck (c : CheckConstraint) : list Literal :=
  match c with mkCheckConstraint search => pushedQuery search end.

Definition pushedColumnConstraint (def : ColumnConstraintDefinition)
    : list Literal :=
  match def with
  | mkColumnConstraintDefinition _ (ColumnCheck c) _ => pushedCheck c
  | _ => []
  end.

Definition pushedTableConstraint (def : TableConstraint) : list Literal :=
  match def with
  | mkTableConstraint _ (TableCheck c) _ => pushedCheck c
  | _ => []
  end.

Definition pushedColumnDefinition (def : ColumnDefinition) : list Literal :=
  match def with
  | mkColumnDefinition _ _ default constraints _ =>
      (pushedWhen pushedDefaultOption default
       ++ flat_map pushedColumnConstraint constraints)%list
  end.

(** The literals a statement has pushed when [renderStatement] returns. *)
Definition pushedStatement (statement : Statement) : list Literal :=
  match statement with
  | SQuery q => pushedQuery q
  | SInsert (mkInsert _ _ (Some (ValuesConstructor rows))) =>
      flat_map (flat_map pushedCell) rows
  | SInsert (mkInsert _ _ (Some (ValuesQuery q))) => pushedQuery q
  | SInsert _ => []
  | SUpdate (mkUpdate _ assignments where_) =>
      (pushedAssignments assignments ++ pushedWhen pushedExpr where_)%list
  | SDelete (mkDelete _ where_) => pushedWhen pushedExpr where_
  | SUpdatePositioned (mkUpdatePositioned _ assignments _) =>
      pushedAssignments assignments
  | STableDefinition (mkTableDefinition _ _ columns constraints _) =>
      (flat_map pushedColumnDefinition columns
       ++ flat_map pushedTableConstraint constraints)%list
  | SViewDefinition (mkViewDefinition _ _ query _) => pushedQuery query
  | SAssertionDefinition (mkAssertionDefinition _ search _) =>
      pushedQuery search
  | _ => []
  end.

End Pushed.

(** * The builders (src/builder) and the object helpers (src/ast/util.ts)

    The builder methods that make the trees the renderer walks, on the same
    AST: each takes the query (or statement list) its builder holds and
    gives the one of the builder it returns. *)

Section Builders.

Context {host : Host}.

(** [s.split(sep)] for a separator of one character: the pieces between
    the separators, empty pieces included. *)
Fixpoint split (sep : ascii) (s : string) : list string :=
  match s with
  | EmptyString => [EmptyString]
  | String c rest =>
      if Ascii.eqb c sep then EmptyString :: split sep rest
      else match split sep rest with
           | part :: parts => String c part :: parts
           | [] => [String c EmptyString]
           end
  end.

Definition dot : ascii := ascii_of_nat 46.

(** A column given by name to [select] or [orderBy]: split at the dots, one
    part is an identifier, more are a compound identifier. *)
Definition columnExpr (c : string) : Expr :=
  let idParts := split dot c in
  match idParts with
  | [part] => EIdent (mkIdent part)
  | _ => CompoundIdentifier (map (fun p => EIdent (mkIdent p)) idParts)
  end.

(** An argument of [select]: a column name, or an object, taken as the
    aliased selection [Builder.as] makes. *)
Inductive Col : Type :=
| ColName (c : string)
| ColAliased (selection : Expr) (alias : Ident).

Definition columnSelection (c : Col) : Selection :=
  match c with
  | ColAliased selection alias => AliasedSelection selection alias
  | ColName c => AnonymousSelection (columnExpr c)
  end.

(** [lens<...>().selections.set(s => [...s, ...selections])] *)
Definition addSelections (selections : list Selection) (s : Select)
    : Select :=
  match s with
  | mkSelect sels from where_ groupBy having =>
      mkSelect (sels ++ selections)%list from where_ groupBy having
  end.

(** [QueryBuilder.select(...cols)] *)
Definition select (cols : list Col) (query : Query) : Query :=
  let selections := map columnSelection cols in
  match query with
  | mkQuery ctes selection unions ordering limit offset =>
      match unions with
      | [] =>
          mkQuery ctes (addSelections selections selection) unions ordering
            limit offset
      | _ =>
          let numUnions := List.length unions in
          match nth_error unions (numUnions - 1) with
          | Some (mkSetOp func all currentSelect) =>
              let newUnion :=
                mkSetOp func all (addSelections selections currentSelect) in
              mkQuery ctes selection
                (firstn (numUnions - 1) unions ++ [newUnion])%list
                ordering limit offset
          | None => query
          end
      end
  end.

(** [typeof expr === 'number' ? Lit(NumLit(expr)) : expr] *)
Definition numberOrExpr (expr : Expr + number) : Expr :=
  match expr with
  | inr n => Lit (NumLit (inl n))
  | inl e => e
  end.

(** [QueryBuilder.limit(expr)] and [QueryBuilder.offset(expr)] *)
Definition limit (expr : Expr + number) (query : Query) : Query :=
  match query with
  | mkQuery ctes selection unions ordering _ offset =>
      mkQuery ctes selection unions ordering (Some (numberOrExpr expr)) offset
  end.

Definition offset (expr : Expr + number) (query : Query) : Query :=
  match query with
  | mkQuery ctes selection unions ordering limit _ =>
      mkQuery ctes selection unions ordering limit (Some (numberOrExpr expr))
  end.

(** [QueryBuilder.with(alias, sub)]: a CTE without a column list, behind the
    CTEs the query has. *)
Definition with_ (alias : string) (sub : Query) (query : Query) : Query :=
  match query with
  | mkQuery ctes selection unions ordering limit offset =>
      mkQuery (ctes ++ [mkCommonTableExpr (mkIdent alias) [] sub])%list
        selection unions ordering limit offset
  end.

(** [Builder.lit(l)]: by [typeof l], a number, a string or a boolean; any
    other value is the null literal. *)
Definition lit (l : any) : Expr :=
  Lit match l with
      | JNumber n => NumLit (inl n)
      | JString s => StringLit s
      | JBoolean b => BoolLit b
      | _ => NullLit
      end.

(** The values the type of [lit]'s argument admits: a number, a string, a
    boolean or null. *)
Definition isPrimitive (l : any) : bool :=
  match l with
  | JNull | JNumber _ | JString _ | JBoolean _ => true
  | JDate _ | JObject _ => false
  end.

(** The fields of a query the properties of the builder read. *)
Definition query_ctes (q : Query) : list CommonTableExpr :=
  match q with mkQuery ctes _ _ _ _ _ => ctes end.
Definition query_selection (q : Query) : Select :=
  match q with mkQuery _ selection _ _ _ _ => selection end.
Definition query_unions (q : Query) : list SetOp :=
  match q with mkQuery _ _ unions _ _ _ => unions end.
Definition query_limit (q : Query) : option Expr :=
  match q with mkQuery _ _ _ _ limit _ => limit end.
Definition query_offset (q : Query) : option Expr :=
  match q with mkQuery _ _ _ _ _ offset => offset end.
Definition select_selections (s : Select) : list Selection :=
  match s with mkSelect selections _ _ _ _ => selections end.

(** ** The schema builder (src/builder/schema.ts) *)

(** The privilege names [#makePrivilege] accepts, in either case. *)
Inductive PrivilegeName : Type :=
| NameDelete | NameInsert | NameSelect | NameReferences | NameUpdate
| NameUsage.

(** A [PrivilegeArg]: a privilege, or a name in lower or upper case. *)
Inductive PrivilegeArg : Type :=
| ArgPrivilege (p : Privilege)
| ArgName (upperCase : bool) (n : PrivilegeName).

(** [#makePrivilege(p)]: the named insert, references and update privileges
    get an empty column list, not an absent one. *)
Definition makePrivilege (p : PrivilegeArg) : Privilege :=
  match p with
  | ArgPrivilege p => p
  | ArgName _ NameDelete => DeletePrivilege
  | ArgName _ NameInsert => InsertPrivilege (Some [])
  | ArgName _ NameSelect => SelectPrivilege
  | ArgName _ NameReferences => ReferencePrivilege (Some [])
  | ArgName _ NameUpdate => UpdatePrivilege (Some [])
  | ArgName _ NameUsage => UsagePrivilege
  end.

(** [SchemaBuilder.createAssertion(name, opts)] on the statements of the
    builder: [deferrable] defaults to true and [initiallyDeferred] to
    false. *)
Definition createAssertion (name : string) (search : Query)
    (opts_initiallyDeferred opts_deferrable : option bool)
    (_statements : list Statement) : list Statement :=
  let checkTime :=
    {| deferrable :=
         match opts_deferrable with Some b => b | None => true end;
       initiallyDeferred :=
         match opts_initiallyDeferred with Some b => b | None => false end
    |} in
  let def :=
    mkAssertionDefinition (mkIdent name) search (Some checkTime) in
  (_statements ++ [SAssertionDefinition def])%list.

(** The keyword a privilege without a column list renders as. *)
Definition privilegeKeyword (p : Privilege) : string :=
  match p with
  | SelectPrivilege => "SELECT"
  | DeletePrivilege => "DELETE"
  | InsertPrivilege _ => "INSERT"
  | UpdatePrivilege _ => "UPDATE"
  | ReferencePrivilege _ => "REFERENCES"
  | UsagePrivilege => "USAGE"
  end.

Definition isDomainDefinition (def : SchemaElement) : bool :=
  match def with
  | ElemDomainDefinition _ => true
  | _ => false
  end.

End Builders.

(** ** Objects (src/ast/util.ts)

    An object as its own properties in insertion order, keyed by names that
    are not array indices. *)
Section Objects.

Variable V : Type.

Definition JsObject : Type := list (string * V).

(** [o[k]] *)
Fixpoint get (k : string) (o : JsObject) : option V :=
  match o with
  | [] => None
  | (k', v) :: rest => if String.eqb k k' then Some v else get k rest
  end.

(** [o[k] = v]: an own property keeps its place, a new one goes last. *)
Fixpoint set (k : string) (v : V) (o : JsObject) : JsObject :=
  match o with
  | [] => [(k, v)]
  | (k', v') :: rest =>
      if String.eqb k k' then (k', v) :: rest else (k', v') :: set k v rest
  end.

(** [{...target, ...source}]: the properties of [source] assigned in order. *)
Definition spread (target source : JsObject) : JsObject :=
  fold_left (fun o kv => set (fst kv) (snd kv) o) source target.

(** [tag(tag, obj)] is [{ _tag: tag, ...obj }]. *)
Definition tag (tag_ : V) (obj : JsObject) : JsObject :=
  spread [("_tag", tag_)] obj.

(** [copy(obj, vals)] is [{ ...obj, ...vals }]. *)
Definition copy (obj vals : JsObject) : JsObject :=
  spread (spread [] obj) vals.

End Objects.

(** * Properties *)

(** ** Numbers and their text *)
































Section Properties.

Context {host : Host}.
Variable this : Renderer.

(** ** The monad: how a returned value comes about *)

Lemma ret_Return {A} (a b : A) (ps ps' : list any) :
  ret a ps = (Return b, ps') -> a = b /\ ps = ps'.
Proof. unfold ret. intros H. inversion H. split; reflexivity. Qed.

Lemma bind_Return {A B} (m : Render A) (k : A -> Render B) ps b ps' :
  bind m k ps = (Return b, ps') ->
  exists a ps1, m ps = (Return a, ps1) /\ k a ps1 = (Return b, ps').
Proof.
  unfold bind. destruct (m ps) as [[a | e] ps1]; intros H.
  - exists a, ps1. split; [reflexivity | exact H].
  - discriminate H.
Qed.

Lemma rendersTo_intro (m : Render string) ps s ps' :
  m ps = (Return s, ps') -> rendersTo m s.
Proof. intros H. exists ps, ps'. exact H. Qed.

Lemma mapM_Return {A} (f : A -> Render string) (xs : list A) :
  forall ps ys ps',
    mapM f xs ps = (Return ys, ps') ->
    Forall2 (fun x y => rendersTo (f x) y) xs ys.
Proof.
  induction xs as [| x xs IH]; intros ps ys ps' H; simpl in H.
  - apply ret_Return in H. destruct H as [<- _]. constructor.
  - apply bind_Return in H. destruct H as (y & p1 & Hy & H).
    apply bind_Return in H. destruct H as (ys' & p2 & Hys & H).
    apply ret_Return in H. destruct H as [<- _].
    constructor.
    + eapply rendersTo_intro. exact Hy.
    + eapply IH. exact Hys.
Qed.

Lemma mapM_length {A B} (f : A -> Render B) (xs : list A) :
  forall ps ys ps',
    mapM f xs ps = (Return ys, ps') -> List.length ys = List.length xs.
Proof.
  induction xs as [| x xs IH]; intros ps ys ps' H; simpl in H.
  - apply ret_Return in H. destruct H as [<- _]. reflexivity.
  - apply bind_Return in H. destruct H as (y & p1 & Hy & H).
    apply bind_Return in H. destruct H as (ys' & p2 & Hys & H).
    apply ret_Return in H. destruct H as [<- _].
    simpl. f_equal. eapply IH. exact Hys.
Qed.

Lemma ifPresent_Return {A} (x : option A) (f : A -> Render string) ps c ps' :
  ifPresent x f ps = (Return c, ps') ->
  match x with
  | None => c = ""
  | Some a => rendersTo (f a) c
  end.
Proof.
  destruct x as [a |]; simpl; intros H.
  - eapply rendersTo_intro. exact H.
  - apply ret_Return in H. destruct H as [<- _]. reflexivity.
Qed.

(** A keyword clause: the text of the expression behind the keyword. *)
Lemma keyword_clause (keyword : string) (e : option Expr) ps c ps' :
  ifPresent e (fun e => bind (renderExpr this e)
                          (fun s => ret (keyword ++ s))) ps
    = (Return c, ps') ->
  optionalClause this keyword e c.
Proof.
  intros H. apply ifPresent_Return in H.
  destruct e as [e |]; simpl; [| exact H].
  destruct H as (p & p' & H).
  apply bind_Return in H. destruct H as (s & p1 & Hs & H).
  apply ret_Return in H. destruct H as [<- _].
  exists s. split; [eapply rendersTo_intro; exact Hs | reflexivity].
Qed.

Lemma append_assoc (a b c : string) : (a ++ b) ++ c = a ++ (b ++ c).
Proof. induction a as [| x a IH]; simpl; [| rewrite IH]; reflexivity. Qed.

(** A space in front of texts joined by a space: every text gets one. *)
Lemma lead_join (xs : list string) :
  xs <> [] ->
  " " ++ join " " xs = String.concat "" (map (fun x => " " ++ x) xs).
Proof.
  induction xs as [| x xs IH]; intros Hne; [contradiction Hne; reflexivity |].
  destruct xs as [| y xs]; [reflexivity |].
  change (join " " (x :: y :: xs)) with (x ++ " " ++ join " " (y :: xs)).
  change (String.concat "" (map (fun x => " " ++ x) (x :: y :: xs)))
    with ((" " ++ x) ++ ""
            ++ String.concat "" (map (fun x => " " ++ x) (y :: xs))).
  rewrite <- IH by discriminate.
  rewrite append_assoc. reflexivity.
Qed.

(** ** Literals *)

(** In parameter mode a literal of any variant is pushed and a placeholder
    for the new length of the buffer is returned. *)
Lemma renderLiteral_paramsMode (literal : Literal) (ps : list any) :
  _paramsMode this = true ->
  renderLiteral this literal ps =
    (Return (renderPlaceholder this (S (List.length ps))),
     (ps ++ [literal_val literal])%list).
Proof. intros Hmode. unfold renderLiteral. rewrite Hmode. reflexivity. Qed.

Lemma renderPlaceholder_style (n : nat) :
  renderPlaceholder this n =
    match _placeHolderStyle this with
    | Dollar => "$" ++ length_toString n
    | Question => "?"
    end.
Proof. unfold renderPlaceholder. destruct (_placeHolderStyle this); reflexivity. Qed.

(** A VALUES row of literals in parameter mode: the cells are rendered left
    to right, so the placeholders are numbered in the order of the text and
    the buffer grows by the values in that same order. *)
Lemma literal_row_paramsMode (literals : list Literal) :
  _paramsMode this = true ->
  forall ps,
    mapM (renderCell this) (map (fun l => CellExpr (Lit l)) literals) ps =
      (Return (map (renderPlaceholder this)
                 (seq (S (List.length ps)) (List.length literals))),
       (ps ++ map literal_val literals)%list).
Proof.
  intros Hmode.
  induction literals as [| l ls IH]; intros ps; simpl.
  - unfold ret. rewrite app_nil_r. reflexivity.
  - unfold bind at 1. rewrite renderLiteral_paramsMode by exact Hmode.
    unfold bind at 1. rewrite IH.
    rewrite length_app, Nat.add_comm. simpl.
    rewrite <- app_assoc. reflexivity.
Qed.


(** C9: with paramsMode on, a CustomLit does not raise: its val is pushed
    onto the buffer and the placeholder of the new length is returned, [$n]
    or [?] by the placeholder style; inline mode raises on the same
    literal. *)
Theorem renderLiteral_CustomLit_paramsMode (val : any) (ps : list any) :
  _paramsMode this = true ->
  renderLiteral this (CustomLit val) ps =
    (Return match _placeHolderStyle this with
            | Dollar => "$" ++ length_toString (S (List.length ps))
            | Question => "?"
            end,
     (ps ++ [val])%list)
  /\ renderLiteral (mkRenderer false (_placeHolderStyle this)) (CustomLit val)
       ps
     = (Throw "Custom literal encountered, please extend the renderer", ps).
Proof.
  intros Hmode. split.
  - rewrite renderLiteral_paramsMode by exact Hmode.
    rewrite renderPlaceholder_style. reflexivity.
  - reflexivity.
Qed.

(** ** Insert *)

(** An insert of one row of literals in parameter mode, from any buffer: in
    the text the placeholders stand in the order of the buffer. *)
Lemma renderInsert_literal_row (table : Ident) (columns : list Ident)
    (literals : list Literal) (ps : list any) :
  _paramsMode this = true ->
  renderInsert this
    (mkInsert table columns
       (Some (ValuesConstructor
                [map (fun l => CellExpr (Lit l)) literals]))) ps =
    (Return ("INSERT INTO " ++ renderIdent table
               ++ match columns with
                  | [] => ""
                  | _ => " (" ++ join ", " (map renderIdent columns) ++ ")"
                  end
               ++ " VALUES ("
               ++ join ", " (map (renderPlaceholder this)
                               (seq (S (List.length ps))
                                  (List.length literals)))
               ++ ")"),
     (ps ++ map literal_val literals)%list).
Proof.
  intros Hmode.
  pose proof (literal_row_paramsMode literals Hmode ps) as Hrow.
  unfold renderInsert.
  unfold mapM, bind, ret in Hrow |- *. rewrite Hrow.
  destruct columns; reflexivity.
Qed.

(** C2: an Insert whose values are null raises, from renderInsert and from
    renderStatement alike: the outcome is the thrown error, no text is
    returned, and nothing was pushed onto the buffer. *)
Theorem renderInsert_null_values (table : Ident) (columns : list Ident)
    (ps : list any) :
  renderInsert this (mkInsert table columns None) ps
    = (Throw "Invalid Insert. Insert must have VALUES", ps)
  /\ renderStatement this (SInsert (mkInsert table columns None)) ps
     = (Throw "Invalid Insert. Insert must have VALUES", ps).
Proof. split; reflexivity. Qed.

(** ** Check-time attributes *)

(** C7: the four combinations of deferrable and initiallyDeferred give the
    four phrases: INITIALLY DEFERRED or IMMEDIATE by initiallyDeferred, then
    DEFERRABLE or NOT DEFERRABLE by deferrable; deferrable without
    initiallyDeferred is INITIALLY IMMEDIATE DEFERRABLE. *)
Theorem renderConstraintCheckTime_phrases :
  (forall cct,
     renderConstraintCheckTime cct =
       "INITIALLY " ++ (if initiallyDeferred cct then "DEFERRED"
                        else "IMMEDIATE")
         ++ " " ++ (if deferrable cct then "DEFERRABLE"
                    else "NOT DEFERRABLE"))
  /\ renderConstraintCheckTime (mkConstraintCheckTime true true)
     = "INITIALLY DEFERRED DEFERRABLE"
  /\ renderConstraintCheckTime (mkConstraintCheckTime true false)
     = "INITIALLY IMMEDIATE DEFERRABLE"
  /\ renderConstraintCheckTime (mkConstraintCheckTime false true)
     = "INITIALLY DEFERRED NOT DEFERRABLE"
  /\ renderConstraintCheckTime (mkConstraintCheckTime false false)
     = "INITIALLY IMMEDIATE NOT DEFERRABLE".
Proof.
  split; [| repeat split].
  intros [[|] [|]]; reflexivity.
Qed.

(** ** Queries *)

Lemma cte_sound (cte : CommonTableExpr) (sub : string) :
  rendersTo
    (match cte with
     | mkCommonTableExpr alias_name alias_columns cte_query =>
         bind (renderQuery this cte_query) (fun q =>
           ret (renderIdent alias_name
                  ++ match alias_columns with
                     | [] => ""
                     | _ => " (" ++ join ", " (map renderIdent alias_columns)
                              ++ ")"
                     end
                  ++ " AS (" ++ q ++ ")"))
     end) sub ->
  cteText this cte sub.
Proof.
  destruct cte as [n cols q]. intros (p & p' & H).
  apply bind_Return in H. destruct H as (qt & p1 & Hq & H).
  apply ret_Return in H. destruct H as [<- _].
  exists qt. split; [eapply rendersTo_intro; exact Hq | reflexivity].
Qed.

Lemma order_sound (order : OrderingExpr) (ot : string) :
  rendersTo
    (match order with
     | mkOrderingExpr e ord nullHandling =>
         bind (renderExpr this e) (fun s =>
           ret (s ++ match ord with None => "" | Some o => " " ++ o end
                  ++ match nullHandling with
                     | None => ""
                     | Some n => " " ++ n
                     end))
     end) ot ->
  orderText this order ot.
Proof.
  destruct order as [e ord nh]. intros (p & p' & H).
  apply bind_Return in H. destruct H as (s & p1 & Hs & H).
  apply ret_Return in H. destruct H as [<- _].
  exists s. split; [eapply rendersTo_intro; exact Hs | reflexivity].
Qed.

Lemma union_sound (us : list SetOp) :
  forall texts,
    Forall2 (fun u y =>
               rendersTo
                 (match u with
                  | mkSetOp func all select =>
                      bind (renderSelect this select) (fun s =>
                        ret (" " ++ func ++ (if all then " ALL" else "")
                               ++ " " ++ s))
                  end) y) us texts ->
    Forall2 (unionText this "  ") us (map (fun x => " " ++ x) texts).
Proof.
  induction us as [| u us IH]; intros texts H.
  - inversion H. constructor.
  - inversion H as [| u' y us' ys Hu Hrest]; subst. simpl.
    constructor; [| apply IH; exact Hrest].
    destruct u as [func all select].
    destruct Hu as (p & p' & Hu).
    apply bind_Return in Hu. destruct Hu as (s & p1 & Hs & Hu).
    apply ret_Return in Hu. destruct Hu as [<- _].
    exists s. split; [eapply rendersTo_intro; exact Hs | reflexivity].
Qed.

(** The text of a query is the WITH clause (absent without CTEs, a CTE's
    column list only when it has columns), the root select, the union
    entries, the ORDER BY clause, LIMIT and OFFSET, in this order; a union
    entry is two spaces, the set-operator keyword, ALL when flagged, a space
    and the rendered select. *)
Theorem renderQuery_text (query : Query) (ps : list any) (t : string)
    (ps' : list any) :
  renderQuery this query ps = (Return t, ps') ->
  queryText this "  " query t.
Proof.
  destruct query as [ctes selection unions ordering limit offset].
  intros H. simpl in H.
  apply bind_Return in H. destruct H as (w & p1 & Hw & H).
  apply bind_Return in H. destruct H as (l & p2 & Hl & H).
  apply bind_Return in H. destruct H as (f & p3 & Hf & H).
  apply bind_Return in H. destruct H as (o & p4 & Ho & H).
  apply bind_Return in H. destruct H as (s & p5 & Hs & H).
  apply bind_Return in H. destruct H as (u & p6 & Hu & H).
  apply ret_Return in H. destruct H as [<- _].
  apply (keyword_clause " LIMIT ") in Hl.
  apply (keyword_clause " OFFSET ") in Hf.
  assert (Hwith : withClause this ctes w).
  { destruct ctes as [| cte ctes].
    - apply ret_Return in Hw. destruct Hw as [<- _]. reflexivity.
    - apply bind_Return in Hw. destruct Hw as (subs & q1 & Hsubs & Hw).
      apply ret_Return in Hw. destruct Hw as [<- _].
      exists subs. split; [| reflexivity].
      apply mapM_Return in Hsubs.
      eapply Forall2_impl; [| exact Hsubs]. intros a b. apply cte_sound. }
  assert (Horder : orderByClause this ordering o).
  { destruct ordering as [| order ordering].
    - apply ret_Return in Ho. destruct Ho as [<- _]. reflexivity.
    - apply bind_Return in Ho. destruct Ho as (orders & q1 & Hos & Ho).
      apply ret_Return in Ho. destruct Ho as [<- _].
      exists orders. split; [| reflexivity].
      apply mapM_Return in Hos.
      eapply Forall2_impl; [| exact Hos]. intros a b. apply order_sound. }
  assert (Hunions : exists texts,
             Forall2 (unionText this "  ") unions texts /\
             u = String.concat "" texts).
  { destruct unions as [| un unions].
    - apply ret_Return in Hu. destruct Hu as [<- _].
      exists []. split; [constructor | reflexivity].
    - apply bind_Return in Hu. destruct Hu as (texts & q1 & Hts & Hu).
      apply ret_Return in Hu. destruct Hu as [<- _].
      exists (map (fun x => " " ++ x) texts). split.
      + apply union_sound. eapply mapM_Return. exact Hts.
      + apply lead_join. apply mapM_length in Hts.
        destruct texts; [discriminate Hts | discriminate]. }
  destruct Hunions as (texts & Htexts & ->).
  exists w, s, texts, o, l, f.
  repeat split; try assumption.
  eapply rendersTo_intro. exact Hs.
Qed.

(** ** Selects *)

Lemma selection_sound (sel : Selection) (st : string) :
  rendersTo
    (match sel with
     | AnonymousSelection selection => renderExpr this selection
     | AliasedSelection selection alias =>
         bind (renderExpr this selection) (fun e =>
           ret (e ++ " AS " ++ renderIdent alias))
     end) st ->
  selectionText this sel st.
Proof.
  destruct sel as [e | e alias]; simpl; [auto |].
  intros (p & p' & H).
  apply bind_Return in H. destruct H as (s & p1 & Hs & H).
  apply ret_Return in H. destruct H as [<- _].
  exists s. split; [eapply rendersTo_intro; exact Hs | reflexivity].
Qed.

Lemma join_sound (j : Join) (jt : string) :
  rendersTo
    (match j with
     | mkJoin kind jtable on =>
         bind (renderTable this jtable) (fun t =>
           bind (renderExpr this on) (fun o =>
             ret (" " ++ kind ++ " JOIN " ++ t ++ " ON " ++ o)))
     end) jt ->
  joinText this j jt.
Proof.
  destruct j as [kind jtable on]. intros (p & p' & H).
  apply bind_Return in H. destruct H as (t & p1 & Ht & H).
  apply bind_Return in H. destruct H as (o & p2 & Ho & H).
  apply ret_Return in H. destruct H as [<- _].
  exists t, o. repeat split; eapply rendersTo_intro; eassumption.
Qed.

(** C10: the text of a select is SELECT and the selections, the FROM clause,
    the WHERE clause, the group-by part and the having part; with a
    non-empty groupBy the group-by part is the text GROUP BY with its
    leading space, directly followed by the rendered expressions joined by a
    comma and a space, and with a having expression the having part is the
    text HAVING with its leading space, directly followed by the rendered
    expression: no space stands between either keyword and what follows. *)
Theorem renderSelect_groupBy_having (selections : list Selection)
    (from : option JoinedTable) (where_ : option Expr) (groupBy : list Expr)
    (having : option Expr) (ps : list any) (t : string) (ps' : list any) :
  renderSelect this (mkSelect selections from where_ groupBy having) ps
    = (Return t, ps') ->
  exists ss f w g h,
    Forall2 (selectionText this) selections ss /\
    fromClause this from f /\
    optionalClause this " WHERE " where_ w /\
    t = "SELECT " ++ join ", " ss ++ f ++ w ++ g ++ h /\
    (groupBy <> [] ->
     exists gl, groupByList this groupBy gl /\ g = " GROUP BY" ++ gl) /\
    (forall e, having = Some e ->
     exists s, rendersTo (renderExpr this e) s /\ h = " HAVING" ++ s).
Proof.
  intros H. simpl in H.
  apply bind_Return in H. destruct H as (ss & p1 & Hss & H).
  apply bind_Return in H. destruct H as (w & p2 & Hw & H).
  apply bind_Return in H. destruct H as (g & p3 & Hg & H).
  apply bind_Return in H. destruct H as (h & p4 & Hh & H).
  apply bind_Return in H. destruct H as (f & p5 & Hf & H).
  apply ret_Return in H. destruct H as [<- _].
  apply (keyword_clause " WHERE ") in Hw.
  apply (keyword_clause " HAVING") in Hh.
  exists ss, f, w, g, h.
  split; [| split; [| split; [| split; [| split]]]].
  - apply mapM_Return in Hss.
    eapply Forall2_impl; [| exact Hss]. intros a b. apply selection_sound.
  - destruct from as [[table joins] |].
    + apply bind_Return in Hf. destruct Hf as (it & q1 & Hit & Hf).
      apply bind_Return in Hf. destruct Hf as (js & q2 & Hjs & Hf).
      apply ret_Return in Hf. destruct Hf as [<- _].
      exists it, js. split; [eapply rendersTo_intro; exact Hit |].
      split; [| reflexivity].
      apply mapM_Return in Hjs.
      eapply Forall2_impl; [| exact Hjs]. intros a b. apply join_sound.
    + apply ret_Return in Hf. destruct Hf as [<- _]. reflexivity.
  - exact Hw.
  - reflexivity.
  - intros Hne. destruct groupBy as [| e es]; [contradiction Hne; reflexivity |].
    apply bind_Return in Hg. destruct Hg as (gs & q1 & Hgs & Hg).
    apply ret_Return in Hg. destruct Hg as [<- _].
    exists (join ", " gs). split; [| reflexivity].
    exists gs. split; [| reflexivity].
    eapply mapM_Return. exact Hgs.
  - intros e ->. exact Hh.
Qed.

(** ** Statements *)

Lemma text_not_Unrendered (m : Render string) (ps : list any)
    (statement : Statement) :
  fst (text m ps) <> Return (Unrendered statement).
Proof.
  unfold text, bind, ret. destruct (m ps) as [[s | e] p]; simpl; discriminate.
Qed.

(** C1, as the code has it: every variant the spec names is a case of the
    switch or one of RevokePrivilege (the spec's RevokeStatement), DropTable,
    DropView, DropDomain and DropAssertion; a statement of a variant the
    switch has a case for is handed to the render method of its variant,
    whose text or error is the result, and never reaches the fallback; a
    statement of one of the five others reaches the fallback, which returns
    the statement itself. *)
Theorem renderStatement_cases (statement : Statement) (ps : list any) :
  (In (specName (_tag statement)) namedVariants ->
   In (_tag statement) switchCases \/ In (_tag statement) unrenderedVariants)
  /\ ((forall s, renderStatement this (SQuery s) = text (renderQuery this s))
      /\ (forall s, renderStatement this (SInsert s)
                    = text (renderInsert this s))
      /\ (forall s, renderStatement this (SUpdate s)
                    = text (renderUpdate this s))
      /\ (forall s, renderStatement this (SDelete s)
                    = text (renderDelete this s))
      /\ (forall s, renderStatement this (SUpdatePositioned s)
                    = text (renderUpdatePositioned this s))
      /\ (forall s, renderStatement this (SDeletePositioned s)
                    = text (renderDeletePositioned s))
      /\ (forall s, renderStatement this (SCreateSchema s)
                    = text (renderCreateSchema s))
      /\ (forall s, renderStatement this (STableDefinition s)
                    = text (renderTableDefinition this s))
      /\ (forall s, renderStatement this (SViewDefinition s)
                    = text (renderViewDefinition this s))
      /\ (forall s, renderStatement this (SGrantStatement s)
                    = text (renderGrantStatement s))
      /\ (forall s, renderStatement this (SDomainDefinition s)
                    = text (renderDomainDefinition this s))
      /\ (forall s, renderStatement this (SAssertionDefinition s)
                    = text (renderAssertionDefinition this s)))
  /\ (In (_tag statement) switchCases -> ~ reachesFallback this statement ps)
  /\ (In (_tag statement) unrenderedVariants ->
      renderStatement this statement ps = (Return (Unrendered statement), ps)
      /\ reachesFallback this statement ps).
Proof.
  split; [| split; [repeat split |]].
  - destruct statement; simpl; intros Hin;
      try (left; tauto); try (right; tauto).
  - unfold reachesFallback.
    destruct statement; simpl _tag; split; intros Hin;
      try apply text_not_Unrendered;
      try (split; reflexivity);
      exfalso; simpl in Hin; intuition discriminate.
Qed.

End Properties.

(** * Runs on the concrete host *)

(** C4: the insert of test/insert.ts, inline and in parameter mode with the
    dollar style, through renderStatement and through renderInsert: the
    inline text holds the four values, the parameter text holds the
    placeholders one to four and the buffer the four values in order. *)
Theorem employee_insert_renders :
  renderStatement inlineRenderer (SInsert employeeInsert) [] =
    (Return (Text ("INSERT INTO " ++ dquoted "employee" ++ " ("
                     ++ dquoted "id" ++ ", " ++ dquoted "name" ++ ", "
                     ++ dquoted "salary" ++ ", " ++ dquoted "department_id"
                     ++ ") VALUES (5, 'Charlotte', 5000, 55)")),
     [])
  /\ renderStatement dollarRenderer (SInsert employeeInsert) [] =
       (Return (Text ("INSERT INTO " ++ dquoted "employee" ++ " ("
                        ++ dquoted "id" ++ ", " ++ dquoted "name" ++ ", "
                        ++ dquoted "salary" ++ ", " ++ dquoted "department_id"
                        ++ ") VALUES ($1, $2, $3, $4)")),
        [JNumber (integer 5); JString "Charlotte"; JNumber (integer 5000); JNumber (integer 55)])
  /\ renderInsert inlineRenderer employeeInsert [] =
       (Return ("INSERT INTO " ++ dquoted "employee" ++ " ("
                  ++ dquoted "id" ++ ", " ++ dquoted "name" ++ ", "
                  ++ dquoted "salary" ++ ", " ++ dquoted "department_id"
                  ++ ") VALUES (5, 'Charlotte', 5000, 55)"),
        [])
  /\ renderInsert dollarRenderer employeeInsert [] =
       (Return ("INSERT INTO " ++ dquoted "employee" ++ " ("
                  ++ dquoted "id" ++ ", " ++ dquoted "name" ++ ", "
                  ++ dquoted "salary" ++ ", " ++ dquoted "department_id"
                  ++ ") VALUES ($1, $2, $3, $4)"),
        [JNumber (integer 5); JString "Charlotte"; JNumber (integer 5000); JNumber (integer 55)]).
Proof. repeat split; vm_compute; reflexivity. Qed.

(** C3, at a query with a literal in the selection and a LIMIT: renderQuery
    renders the limit before the selection, so the buffer holds the limit
    first while the text holds the selection's placeholder first. With the
    question-mark style the first placeholder stands for 5 and the first
    buffer value is 10; with the dollar style the text reads [$2] before
    [$1]. *)
Theorem limit_is_pushed_before_selection :
  renderStatement inlineRenderer (SQuery selectFiveLimitTen) [] =
    (Return (Text "SELECT 5 LIMIT 10"), [])
  /\ renderStatement questionRenderer (SQuery selectFiveLimitTen) [] =
       (Return (Text "SELECT ? LIMIT ?"), [JNumber (integer 10); JNumber (integer 5)])
  /\ renderStatement dollarRenderer (SQuery selectFiveLimitTen) [] =
       (Return (Text "SELECT $2 LIMIT $1"), [JNumber (integer 10); JNumber (integer 5)]).
Proof. repeat split; vm_compute; reflexivity. Qed.

(** C8, at the same query: the buffer of the parameter-mode rendering put
    back into its placeholders in buffer order gives SELECT 10 LIMIT 5,
    where the inline rendering of the statement reads SELECT 5 LIMIT 10. *)
Theorem substituted_parameters_are_swapped :
  exists text params,
    renderStatement questionRenderer (SQuery selectFiveLimitTen) [] =
      (Return (Text text), params)
    /\ substituteInOrder text params = "SELECT 10 LIMIT 5"
    /\ renderStatement inlineRenderer (SQuery selectFiveLimitTen) [] =
         (Return (Text "SELECT 5 LIMIT 10"), []).
Proof.
  exists "SELECT ? LIMIT ?",
    [@JNumber SampleHost (integer 10); @JNumber SampleHost (integer 5)].
  repeat split; vm_compute; reflexivity.
Qed.

(** C1 as stated fails at a DropTable statement: the variant is one the spec
    names, and the switch hands the statement to its fallback. *)
Lemma drop_table_reaches_fallback :
  In (specName (_tag dropEmployee)) namedVariants
  /\ renderStatement inlineRenderer dropEmployee [] =
       (Return (Unrendered dropEmployee), [])
  /\ reachesFallback inlineRenderer dropEmployee [].
Proof.
  split; [| split].
  - vm_compute. tauto.
  - reflexivity.
  - reflexivity.
Qed.

(** The statement switch at a query and at a DropTable statement. *)
Lemma renderStatement_cases_witness :
  renderStatement inlineRenderer (SQuery selectFiveLimitTen)
  = text (renderQuery inlineRenderer selectFiveLimitTen)
  /\ In (_tag (SQuery selectFiveLimitTen)) switchCases
  /\ ~ reachesFallback inlineRenderer (SQuery selectFiveLimitTen) []
  /\ In (specName (_tag dropEmployee)) namedVariants
  /\ In (_tag dropEmployee) unrenderedVariants
  /\ reachesFallback inlineRenderer dropEmployee [].
Proof.
  assert (Hq : In (_tag (SQuery selectFiveLimitTen)) switchCases)
    by (simpl; tauto).
  assert (Hn : In (specName (_tag dropEmployee)) namedVariants)
    by (simpl; tauto).
  assert (Hd : In (_tag dropEmployee) unrenderedVariants)
    by (simpl; tauto).
  pose proof (renderStatement_cases inlineRenderer
                (SQuery selectFiveLimitTen) []) as (_ & Hcases & Hswitch & _).
  pose proof (renderStatement_cases inlineRenderer dropEmployee [])
    as (_ & _ & _ & Hfallback).
  split; [exact (proj1 Hcases selectFiveLimitTen) |].
  split; [exact Hq |]. split; [exact (Hswitch Hq) |].
  split; [exact Hn |]. split; [exact Hd |].
  exact (proj2 (Hfallback Hd)).
Defined.



(** A custom literal pushed behind one earlier parameter, in both styles. *)
Lemma renderLiteral_CustomLit_paramsMode_witness :
  _paramsMode dollarRenderer = true
  /\ renderLiteral dollarRenderer (CustomLit (JObject tt)) [JNull] =
       (Return "$2", [JNull; JObject tt])
  /\ _paramsMode questionRenderer = true
  /\ renderLiteral questionRenderer (CustomLit (JObject tt)) [JNull] =
       (Return "?", [JNull; JObject tt]).
Proof.
  split; [reflexivity | split; [| split; [reflexivity |]]].
  - exact (proj1 (renderLiteral_CustomLit_paramsMode dollarRenderer
                    (JObject tt) [JNull] eq_refl)).
  - exact (proj1 (renderLiteral_CustomLit_paramsMode questionRenderer
                    (JObject tt) [JNull] eq_refl)).
Defined.

(** The text of a query with one union. *)
Lemma renderQuery_text_witness :
  renderQuery inlineRenderer starUnionStar [] =
    (Return "SELECT *  UNION SELECT *", [])
  /\ queryText inlineRenderer "  " starUnionStar "SELECT *  UNION SELECT *".
Proof.
  split; [reflexivity |].
  apply (renderQuery_text inlineRenderer starUnionStar [] _ []).
  reflexivity.
Defined.

(** Inline, a select of the wildcard alone has one text. *)
Lemma star_select_text (s : string) :
  rendersTo (renderSelect inlineRenderer (selectOf [Wildcard])) s ->
  s = "SELECT *".
Proof.
  intros (p & p' & H). vm_compute in H. inversion H. reflexivity.
Qed.

(** C6, at a query with one union: every part of the text is where the claim
    puts it, but the union entry starts with two spaces, not one. The
    rendered text has two spaces in front of UNION, and it is not the text
    the claim describes, with exactly one space in front of the keyword. *)
Theorem union_entry_has_two_spaces :
  renderQuery inlineRenderer starUnionStar [] =
    (Return "SELECT *  UNION SELECT *", [])
  /\ ~ queryText inlineRenderer " " starUnionStar "SELECT *  UNION SELECT *".
Proof.
  split; [reflexivity |].
  intros (w & s & us & o & l & f & Hw & Hs & Hus & Ho & Hl & Hf & Ht).
  simpl in Hw, Ho, Hl, Hf. subst w o l f.
  apply star_select_text in Hs. subst s.
  inversion Hus as [| u ut us0 uts Hu Hrest]; subst.
  inversion Hrest; subst.
  destruct Hu as (s & Hs & ->).
  apply star_select_text in Hs. subst s.
  vm_compute in Ht. discriminate Ht.
Qed.

(** A select with one group-by column and a having condition. *)
Lemma renderSelect_groupBy_having_witness :
  renderSelect inlineRenderer groupedSelect [] =
    (Return ("SELECT * FROM " ++ dquoted "t" ++ " GROUP BY" ++ dquoted "a"
               ++ " HAVING" ++ dquoted "b"), [])
  /\ [EIdent (mkIdent "a")] <> []
  /\ exists ss f w g h,
       Forall2 (selectionText inlineRenderer) [AnonymousSelection Wildcard] ss
       /\ fromClause inlineRenderer
            (Some (mkJoinedTable (BasicTable (mkIdent "t")) [])) f
       /\ optionalClause inlineRenderer " WHERE " None w
       /\ "SELECT * FROM " ++ dquoted "t" ++ " GROUP BY" ++ dquoted "a"
            ++ " HAVING" ++ dquoted "b"
          = "SELECT " ++ join ", " ss ++ f ++ w ++ g ++ h
       /\ ([EIdent (mkIdent "a")] <> [] ->
           exists gl, groupByList inlineRenderer [EIdent (mkIdent "a")] gl
                      /\ g = " GROUP BY" ++ gl)
       /\ (forall e, Some (EIdent (mkIdent "b")) = Some e ->
           exists s, rendersTo (renderExpr inlineRenderer e) s
                     /\ h = " HAVING" ++ s).
Proof.
  split; [reflexivity | split; [discriminate |]].
  apply (renderSelect_groupBy_having inlineRenderer
           [AnonymousSelection Wildcard]
           (Some (mkJoinedTable (BasicTable (mkIdent "t")) []))
           None [EIdent (mkIdent "a")] (Some (EIdent (mkIdent "b")))
           [] _ []).
  reflexivity.
Defined.

(** * General properties of the renderer *)

(** ** Induction on the syntax tree

    Expressions, queries, selects and tables contain one another, through
    lists and nullable fields: a property of all four follows from its
    passing from the children of a node to the node. *)
Section SyntaxInduction.

Context {host : Host}.
Variables (PE : Expr -> Prop) (PQ : Query -> Prop) (PS : Select -> Prop)
          (PT : Table -> Prop).
Hypothesis HE : forall e, exprChildren PE PQ e -> PE e.
Hypothesis HQ : forall q, queryChildren PE PQ PS q -> PQ q.
Hypothesis HS : forall s, selectChildren PE PT s -> PS s.
Hypothesis HT : forall t, tableChildren PE PQ t -> PT t.

Lemma Expr_induction : forall e, PE e
with Query_induction : forall q, PQ q
with Select_induction : forall s, PS s
with Table_induction : forall t, PT t.
Proof.
  - intros e. apply HE. destruct e; simpl; auto.
    + induction qualifiers; constructor; [apply Expr_induction | assumption].
    + induction idChain; constructor; [apply Expr_induction | assumption].
    + split; [destruct expr; simpl; [apply Expr_induction | exact I] |].
      split; [| destruct elseCase; simpl; [apply Expr_induction | exact I]].
      induction cases as [| [c r] cases IH]; constructor;
        [split; apply Expr_induction | assumption].
    + split; [apply Expr_induction |].
      induction args; constructor; [apply Expr_induction | assumption].
    + split; [apply Expr_induction |].
      induction list_; constructor; [apply Expr_induction | assumption].
  - intros q. apply HQ. destruct q as [ctes sel us ord lim off]. simpl.
    repeat split.
    + induction ctes as [| [n cols q] ctes IH]; constructor;
        [apply Query_induction | assumption].
    + apply Select_induction.
    + induction us as [| [f a s] us IH]; constructor;
        [apply Select_induction | assumption].
    + induction ord as [| [e o n] ord IH]; constructor;
        [apply Expr_induction | assumption].
    + destruct lim; simpl; [apply Expr_induction | exact I].
    + destruct off; simpl; [apply Expr_induction | exact I].
  - intros s. apply HS. destruct s as [sels from wh gb hv]. simpl.
    repeat split.
    + induction sels as [| [e | e a] sels IH]; constructor;
        solve [apply Expr_induction | assumption].
    + destruct from as [[t js] |]; [| exact I]. split.
      * apply Table_induction.
      * induction js as [| [k t' o] js IH]; constructor;
          [split; [apply Table_induction | apply Expr_induction]
          | assumption].
    + destruct wh; simpl; [apply Expr_induction | exact I].
    + induction gb; constructor; [apply Expr_induction | assumption].
    + destruct hv; simpl; [apply Expr_induction | exact I].
  - intros t. apply HT. destruct t; simpl; auto.
Qed.

End SyntaxInduction.

Section BufferGrowth.

Context {host : Host}.
Variable this : Renderer.

(** ** The buffer only grows *)

Lemma appendsOnly_ret {A} (a : A) : appendsOnly (ret a).
Proof. intros ps. exists []. simpl. rewrite app_nil_r. reflexivity. Qed.

Lemma appendsOnly_throw {A} (e : string) : appendsOnly (@throw _ A e).
Proof. intros ps. exists []. simpl. rewrite app_nil_r. reflexivity. Qed.

Lemma appendsOnly_bind {A B} (m : Render A) (k : A -> Render B) :
  appendsOnly m -> (forall a, appendsOnly (k a)) -> appendsOnly (bind m k).
Proof.
  intros Hm Hk ps. unfold bind.
  destruct (Hm ps) as [x Hx]. destruct (m ps) as [[a | e] p1]; simpl in Hx.
  - destruct (Hk a p1) as [y Hy]. exists (x ++ y)%list.
    rewrite Hy, Hx, app_assoc. reflexivity.
  - exists x. exact Hx.
Qed.

Lemma appendsOnly_mapM {A B} (f : A -> Render B) (xs : list A) :
  Forall (fun x => appendsOnly (f x)) xs -> appendsOnly (mapM f xs).
Proof.
  induction 1 as [| x xs Hx _ IH]; simpl.
  - apply appendsOnly_ret.
  - apply appendsOnly_bind; [exact Hx | intros y].
    apply appendsOnly_bind; [exact IH | intros ys]. apply appendsOnly_ret.
Qed.

Lemma appendsOnly_ifPresent {A} (x : option A) (f : A -> Render string) :
  whenPresent (fun a => appendsOnly (f a)) x -> appendsOnly (ifPresent x f).
Proof. destruct x; simpl; [auto | intros _; apply appendsOnly_ret]. Qed.

Lemma appendsOnly_renderLiteral (literal : Literal) :
  appendsOnly (renderLiteral this literal).
Proof.
  unfold renderLiteral. destruct (_paramsMode this).
  - intros ps. exists [literal_val literal]. reflexivity.
  - destruct literal; try apply appendsOnly_ret; try apply appendsOnly_throw.
    destruct (toISOString val);
      [apply appendsOnly_ret | apply appendsOnly_throw].
Qed.

Ltac appends_step :=
  match goal with
  | H : _ /\ _ |- _ => destruct H
  | |- appendsOnly (renderDataType _) => apply appendsOnly_throw
  | |- appendsOnly (renderCustomExpr _) => apply appendsOnly_throw
  | |- appendsOnly (renderCustomTable _) => apply appendsOnly_throw
  | |- appendsOnly (bind _ _) => apply appendsOnly_bind; [| intros ?]
  | |- appendsOnly (ret _) => apply appendsOnly_ret
  | |- appendsOnly (throw _) => apply appendsOnly_throw
  | |- appendsOnly (renderLiteral _ _) => apply appendsOnly_renderLiteral
  | |- appendsOnly (ifPresent ?x _) =>
      apply appendsOnly_ifPresent; destruct x; simpl in *
  | H : Forall _ ?xs |- appendsOnly (mapM _ ?xs) =>
      apply appendsOnly_mapM; eapply Forall_impl; [| exact H];
      cbv beta; intros ? ?
  | |- appendsOnly (mapM _ _) =>
      apply appendsOnly_mapM; apply Forall_forall; intros ? _
  | |- appendsOnly (match ?x with _ => _ end) =>
      match type of x with
      | list _ => destruct x
      | _ => destruct x; simpl in *
      end
  | |- True => exact I
  | |- _ => assumption
  end.

Lemma renderExpr_appends_step (e : Expr) :
  exprChildren (fun e => appendsOnly (renderExpr this e))
    (fun q => appendsOnly (renderQuery this q)) e ->
  appendsOnly (renderExpr this e).
Proof. destruct e; simpl; intros H; repeat appends_step. Qed.

Lemma renderQuery_appends_step (q : Query) :
  queryChildren (fun e => appendsOnly (renderExpr this e))
    (fun q => appendsOnly (renderQuery this q))
    (fun s => appendsOnly (renderSelect this s)) q ->
  appendsOnly (renderQuery this q).
Proof.
  destruct q as [ctes sel us ord lim off]; simpl; intros H.
  repeat appends_step.
Qed.

Lemma renderSelect_appends_step (s : Select) :
  selectChildren (fun e => appendsOnly (renderExpr this e))
    (fun t => appendsOnly (renderTable this t)) s ->
  appendsOnly (renderSelect this s).
Proof.
  destruct s as [sels from wh gb hv]; simpl; intros H.
  repeat appends_step.
Qed.

Lemma renderTable_appends_step (t : Table) :
  tableChildren (fun e => appendsOnly (renderExpr this e))
    (fun q => appendsOnly (renderQuery this q)) t ->
  appendsOnly (renderTable this t).
Proof. destruct t; simpl; intros H; repeat appends_step. Qed.

Lemma renderExpr_appendsOnly (e : Expr) : appendsOnly (renderExpr this e).
Proof.
  revert e. apply Expr_induction with
    (PQ := fun q => appendsOnly (renderQuery this q))
    (PS := fun s => appendsOnly (renderSelect this s))
    (PT := fun t => appendsOnly (renderTable this t)).
  - apply renderExpr_appends_step.
  - apply renderQuery_appends_step.
  - apply renderSelect_appends_step.
  - apply renderTable_appends_step.
Qed.

Lemma renderQuery_appendsOnly (q : Query) : appendsOnly (renderQuery this q).
Proof.
  revert q. apply Query_induction with
    (PE := fun e => appendsOnly (renderExpr this e))
    (PS := fun s => appendsOnly (renderSelect this s))
    (PT := fun t => appendsOnly (renderTable this t)).
  - apply renderExpr_appends_step.
  - apply renderQuery_appends_step.
  - apply renderSelect_appends_step.
  - apply renderTable_appends_step.
Qed.

Lemma renderSelect_appendsOnly (s : Select) :
  appendsOnly (renderSelect this s).
Proof.
  apply renderSelect_appends_step. destruct s as [sels from wh gb hv]. simpl.
  pose proof renderExpr_appendsOnly as HE.
  assert (HT : forall t, appendsOnly (renderTable this t)).
  { intros t. apply renderTable_appends_step.
    destruct t; simpl; auto using renderQuery_appendsOnly. }
  repeat split; try (apply Forall_forall; intros; apply HE).
  - destruct from as [[t js] |]; [| exact I]. split; [apply HT |].
    apply Forall_forall. intros [k t' o] _. split; [apply HT | apply HE].
  - destruct wh; simpl; auto.
  - destruct hv; simpl; auto.
Qed.

Lemma renderTable_appendsOnly (t : Table) : appendsOnly (renderTable this t).
Proof.
  apply renderTable_appends_step.
  destruct t; simpl;
    auto using renderQuery_appendsOnly, renderExpr_appendsOnly.
Qed.

Ltac appends_statement :=
  repeat first
    [ apply renderExpr_appendsOnly
    | apply renderQuery_appendsOnly
    | apply renderSelect_appendsOnly
    | apply renderTable_appendsOnly
    | appends_step
    | progress unfold renderCell, renderAssignment, renderDefaultOption,
        renderDomainConstraint, renderCheckConstraint,
        renderColumnConstraint, renderTableConstraint,
        renderColumnDefinition, renderPrivilege, text ].

Lemma renderStatement_appends (statement : Statement) :
  appendsOnly (renderStatement this statement).
Proof.
  destruct statement as [q | i | u | d | u | d | c | t | v | g | d | a
                        | r | d | d | d | d];
    unfold renderStatement, text;
    try destruct i as [t c [[| rows | q] |]];
    try destruct u; try destruct d; try destruct c; try destruct t;
    try destruct v; try destruct g; try destruct a;
    simpl; appends_statement.
Qed.

(** X1: no render method takes a value out of the parameter buffer or
    changes one that is in it: whatever the statement, expression, query,
    select or table, whatever the mode and the outcome (returned text or
    thrown error), the buffer after the call is the buffer before it with
    values appended. *)
Theorem render_only_appends :
  (forall statement ps, exists pushed,
      snd (renderStatement this statement ps) = (ps ++ pushed)%list)
  /\ (forall e ps, exists pushed,
        snd (renderExpr this e ps) = (ps ++ pushed)%list)
  /\ (forall q ps, exists pushed,
        snd (renderQuery this q ps) = (ps ++ pushed)%list)
  /\ (forall s ps, exists pushed,
        snd (renderSelect this s ps) = (ps ++ pushed)%list)
  /\ (forall t ps, exists pushed,
        snd (renderTable this t ps) = (ps ++ pushed)%list).
Proof.
  split; [exact renderStatement_appends |].
  split; [exact renderExpr_appendsOnly |].
  split; [exact renderQuery_appendsOnly |].
  split; [exact renderSelect_appendsOnly | exact renderTable_appendsOnly].
Qed.

End BufferGrowth.

Section InlineMode.

Context {host : Host}.
Variable this : Renderer.
Hypothesis inlineMode : _paramsMode this = false.

(** ** Inline mode never touches the buffer *)

Lemma bufferFree_ret {A} (a : A) : bufferFree (ret a).
Proof. exists (Return a). reflexivity. Qed.

Lemma bufferFree_throw {A} (e : string) : bufferFree (@throw _ A e).
Proof. exists (Throw e). reflexivity. Qed.

Lemma bufferFree_bind {A B} (m : Render A) (k : A -> Render B) :
  bufferFree m -> (forall a, bufferFree (k a)) -> bufferFree (bind m k).
Proof.
  intros [[a | e] Hm] Hk.
  - destruct (Hk a) as [o Ho]. exists o. intros ps.
    unfold bind. rewrite Hm. apply Ho.
  - exists (Throw e). intros ps. unfold bind. rewrite Hm. reflexivity.
Qed.

Lemma bufferFree_mapM {A B} (f : A -> Render B) (xs : list A) :
  Forall (fun x => bufferFree (f x)) xs -> bufferFree (mapM f xs).
Proof.
  induction 1 as [| x xs Hx _ IH]; simpl.
  - apply bufferFree_ret.
  - apply bufferFree_bind; [exact Hx | intros y].
    apply bufferFree_bind; [exact IH | intros ys]. apply bufferFree_ret.
Qed.

Lemma bufferFree_ifPresent {A} (x : option A) (f : A -> Render string) :
  whenPresent (fun a => bufferFree (f a)) x -> bufferFree (ifPresent x f).
Proof. destruct x; simpl; [auto | intros _; apply bufferFree_ret]. Qed.

Lemma bufferFree_renderLiteral (literal : Literal) :
  bufferFree (renderLiteral this literal).
Proof.
  unfold renderLiteral. rewrite inlineMode.
  destruct literal; try apply bufferFree_ret; try apply bufferFree_throw.
  destruct (toISOString val);
    [apply bufferFree_ret | apply bufferFree_throw].
Qed.

Ltac free_step :=
  match goal with
  | H : _ /\ _ |- _ => destruct H
  | |- bufferFree (renderDataType _) => apply bufferFree_throw
  | |- bufferFree (renderCustomExpr _) => apply bufferFree_throw
  | |- bufferFree (renderCustomTable _) => apply bufferFree_throw
  | |- bufferFree (bind _ _) => apply bufferFree_bind; [| intros ?]
  | |- bufferFree (ret _) => apply bufferFree_ret
  | |- bufferFree (throw _) => apply bufferFree_throw
  | |- bufferFree (renderLiteral _ _) => apply bufferFree_renderLiteral
  | |- bufferFree (ifPresent ?x _) =>
      apply bufferFree_ifPresent; destruct x; simpl in *
  | H : Forall _ ?xs |- bufferFree (mapM _ ?xs) =>
      apply bufferFree_mapM; eapply Forall_impl; [| exact H];
      cbv beta; intros ? ?
  | |- bufferFree (mapM _ _) =>
      apply bufferFree_mapM; apply Forall_forall; intros ? _
  | |- bufferFree (match ?x with _ => _ end) =>
      match type of x with
      | list _ => destruct x
      | _ => destruct x; simpl in *
      end
  | |- True => exact I
  | |- _ => assumption
  end.

Lemma renderExpr_free_step (e : Expr) :
  exprChildren (fun e => bufferFree (renderExpr this e))
    (fun q => bufferFree (renderQuery this q)) e ->
  bufferFree (renderExpr this e).
Proof. destruct e; simpl; intros H; repeat free_step. Qed.

Lemma renderQuery_free_step (q : Query) :
  queryChildren (fun e => bufferFree (renderExpr this e))
    (fun q => bufferFree (renderQuery this q))
    (fun s => bufferFree (renderSelect this s)) q ->
  bufferFree (renderQuery this q).
Proof.
  destruct q as [ctes sel us ord lim off]; simpl; intros H.
  repeat free_step.
Qed.

Lemma renderSelect_free_step (s : Select) :
  selectChildren (fun e => bufferFree (renderExpr this e))
    (fun t => bufferFree (renderTable this t)) s ->
  bufferFree (renderSelect this s).
Proof.
  destruct s as [sels from wh gb hv]; simpl; intros H.
  repeat free_step.
Qed.

Lemma renderTable_free_step (t : Table) :
  tableChildren (fun e => bufferFree (renderExpr this e))
    (fun q => bufferFree (renderQuery this q)) t ->
  bufferFree (renderTable this t).
Proof. destruct t; simpl; intros H; repeat free_step. Qed.

Lemma renderExpr_bufferFree (e : Expr) : bufferFree (renderExpr this e).
Proof.
  revert e. apply Expr_induction with
    (PQ := fun q => bufferFree (renderQuery this q))
    (PS := fun s => bufferFree (renderSelect this s))
    (PT := fun t => bufferFree (renderTable this t)).
  - apply renderExpr_free_step.
  - apply renderQuery_free_step.
  - apply renderSelect_free_step.
  - apply renderTable_free_step.
Qed.

Lemma renderQuery_bufferFree (q : Query) : bufferFree (renderQuery this q).
Proof.
  revert q. apply Query_induction with
    (PE := fun e => bufferFree (renderExpr this e))
    (PS := fun s => bufferFree (renderSelect this s))
    (PT := fun t => bufferFree (renderTable this t)).
  - apply renderExpr_free_step.
  - apply renderQuery_free_step.
  - apply renderSelect_free_step.
  - apply renderTable_free_step.
Qed.

Lemma renderSelect_bufferFree (s : Select) : bufferFree (renderSelect this s).
Proof.
  revert s. apply Select_induction with
    (PE := fun e => bufferFree (renderExpr this e))
    (PQ := fun q => bufferFree (renderQuery this q))
    (PT := fun t => bufferFree (renderTable this t)).
  - apply renderExpr_free_step.
  - apply renderQuery_free_step.
  - apply renderSelect_free_step.
  - apply renderTable_free_step.
Qed.

Lemma renderTable_bufferFree (t : Table) : bufferFree (renderTable this t).
Proof.
  apply renderTable_free_step.
  destruct t; simpl;
    auto using renderQuery_bufferFree, renderExpr_bufferFree.
Qed.

Ltac free_statement :=
  repeat first
    [ apply renderExpr_bufferFree
    | apply renderQuery_bufferFree
    | apply renderSelect_bufferFree
    | apply renderTable_bufferFree
    | free_step
    | progress unfold renderCell, renderAssignment, renderDefaultOption,
        renderDomainConstraint, renderCheckConstraint,
        renderColumnConstraint, renderTableConstraint,
        renderColumnDefinition, renderPrivilege, text ].

Lemma renderStatement_bufferFree (statement : Statement) :
  bufferFree (renderStatement this statement).
Proof.
  destruct statement as [q | i | u | d | u | d | c | t | v | g | d | a
                        | r | d | d | d | d];
    unfold renderStatement, text;
    try destruct i as [t c [[| rows | q] |]];
    try destruct u; try destruct d; try destruct c; try destruct t;
    try destruct v; try destruct g; try destruct a;
    simpl; free_statement.
Qed.

(** X2: with paramsMode off rendering is free of the buffer: a statement
    (or expression, query, select, table) has one outcome, the same from
    every buffer, and the buffer is left exactly as it was, also when the
    call throws. *)
Theorem inline_rendering_ignores_buffer :
  (forall statement, exists outcome,
      forall ps, renderStatement this statement ps = (outcome, ps))
  /\ (forall e, exists outcome,
        forall ps, renderExpr this e ps = (outcome, ps))
  /\ (forall q, exists outcome,
        forall ps, renderQuery this q ps = (outcome, ps))
  /\ (forall s, exists outcome,
        forall ps, renderSelect this s ps = (outcome, ps))
  /\ (forall t, exists outcome,
        forall ps, renderTable this t ps = (outcome, ps)).
Proof.
  split; [exact renderStatement_bufferFree |].
  split; [exact renderExpr_bufferFree |].
  split; [exact renderQuery_bufferFree |].
  split; [exact renderSelect_bufferFree | exact renderTable_bufferFree].
Qed.

End InlineMode.

Section Support.

Context {host : Host}.
Variable this : Renderer.

(** ** When rendering returns *)

Lemma returnsWhen_ret {A} (a : A) : returnsWhen (ret a) true.
Proof.
  intros ps. split; [reflexivity | intros _]. exists a, ps. reflexivity.
Qed.

Lemma returnsWhen_throw {A} (e : string) : returnsWhen (@throw _ A e) false.
Proof.
  intros ps. split; [intros (a & ps' & H); discriminate H | discriminate].
Qed.

Lemma returnsWhen_bind {A B} (m : Render A) (k : A -> Render B) b1 b2 :
  returnsWhen m b1 -> (forall a, returnsWhen (k a) b2) ->
  returnsWhen (bind m k) (b1 && b2).
Proof.
  intros Hm Hk ps. unfold bind. split.
  - intros (b & ps' & H).
    destruct (m ps) as [[a | e] p1] eqn:Em; [| discriminate H].
    apply andb_true_intro. split.
    + apply (Hm ps). exists a, p1. exact Em.
    + apply (Hk a p1). exists b, ps'. exact H.
  - intros Hb. apply andb_prop in Hb. destruct Hb as [H1 H2].
    apply (Hm ps) in H1. destruct H1 as (a & p1 & Em). rewrite Em.
    apply (Hk a p1). exact H2.
Qed.

Lemma returnsWhen_bind_ret {A B} (m : Render A) (h : A -> B) b :
  returnsWhen m b -> returnsWhen (bind m (fun a => ret (h a))) b.
Proof.
  intros Hm. rewrite <- (andb_true_r b).
  apply returnsWhen_bind; [exact Hm | intros a; apply returnsWhen_ret].
Qed.

Lemma returnsWhen_bind_never {A B} (m : Render A) (k : A -> Render B) :
  (forall a, returnsWhen (k a) false) -> returnsWhen (bind m k) false.
Proof.
  intros Hk ps. unfold bind. split; [| discriminate].
  intros (b & ps' & H).
  destruct (m ps) as [[a | e] p1]; [| discriminate H].
  apply (Hk a p1). exists b, ps'. exact H.
Qed.

Lemma returnsWhen_bind_thrown {A B} (m : Render A) (k : A -> Render B) :
  returnsWhen m false -> returnsWhen (bind m k) false.
Proof.
  intros Hm ps. unfold bind. split; [| discriminate].
  intros (b & ps' & H).
  destruct (m ps) as [[a | e] p1] eqn:Em; [| discriminate H].
  apply (Hm ps). exists a, p1. exact Em.
Qed.

Lemma returnsWhen_mapM {A B} (f : A -> Render B) (g : A -> bool)
    (xs : list A) :
  Forall (fun x => returnsWhen (f x) (g x)) xs ->
  returnsWhen (mapM f xs) (forallb g xs).
Proof.
  induction 1 as [| x xs Hx _ IH]; simpl.
  - apply returnsWhen_ret.
  - apply returnsWhen_bind; [exact Hx | intros y].
    apply returnsWhen_bind_ret. exact IH.
Qed.

Lemma returnsWhen_renderLiteral (literal : Literal) :
  returnsWhen (renderLiteral this literal)
    (supportedLiteral (negb (_paramsMode this)) literal).
Proof.
  unfold renderLiteral. destruct (_paramsMode this); simpl.
  - replace (supportedLiteral false literal) with true
      by (destruct literal; reflexivity).
    apply returnsWhen_bind_ret with (h := renderPlaceholder this)
                                    (m := push (literal_val literal)).
    intros ps. split; [reflexivity | intros _].
    eexists _, _. reflexivity.
  - destruct literal; simpl; try apply returnsWhen_ret;
      try apply returnsWhen_throw.
    unfold isValidDate. destruct (toISOString val);
      [apply returnsWhen_ret | apply returnsWhen_throw].
Qed.

Ltac returns_step :=
  match goal with
  | H : _ /\ _ |- _ => destruct H
  | |- returnsWhen _ (_ && _ && _) => rewrite <- andb_assoc
  | |- returnsWhen (renderDataType _) false => apply returnsWhen_throw
  | |- returnsWhen (renderCustomExpr _) false => apply returnsWhen_throw
  | |- returnsWhen (renderCustomTable _) false => apply returnsWhen_throw
  | |- returnsWhen (ret _) true => apply returnsWhen_ret
  | |- returnsWhen (throw _) false => apply returnsWhen_throw
  | |- returnsWhen (renderLiteral _ _) _ => apply returnsWhen_renderLiteral
  | |- returnsWhen (bind _ (fun _ => ret _)) _ => apply returnsWhen_bind_ret
  | |- returnsWhen (bind _ _) (_ && _) =>
      apply returnsWhen_bind; [| intros ?]
  | |- returnsWhen (bind _ _) false =>
      first [ apply returnsWhen_bind_thrown; apply returnsWhen_throw
            | apply returnsWhen_bind_never; intros ? ]
  | |- returnsWhen (ifPresent ?x _) (whenSome _ ?x) =>
      destruct x; simpl in *
  | H : Forall _ ?xs |- returnsWhen (mapM _ ?xs) (forallb _ ?xs) =>
      apply returnsWhen_mapM; eapply Forall_impl; [| exact H];
      cbv beta; intros ? ?
  | |- returnsWhen (mapM _ ?xs) (forallb _ ?xs) =>
      apply returnsWhen_mapM; apply Forall_forall; intros ? _
  | |- returnsWhen (match ?x with _ => _ end) _ =>
      match type of x with
      | list _ => destruct x; [simpl; apply returnsWhen_ret |]
      | _ => destruct x; simpl in *
      end
  | |- True => exact I
  | |- _ => assumption
  end.

Lemma renderExpr_returns_step (e : Expr) :
  exprChildren (returnsE this) (returnsQ this) e -> returnsE this e.
Proof.
  unfold returnsE, returnsQ.
  destruct e; simpl; intros H; repeat returns_step.
Qed.

Lemma renderQuery_returns_step (q : Query) :
  queryChildren (returnsE this) (returnsQ this) (returnsS this) q ->
  returnsQ this q.
Proof.
  unfold returnsE, returnsQ, returnsS.
  destruct q as [ctes sel us ord lim off]; simpl; intros H.
  repeat returns_step.
Qed.

Lemma renderSelect_returns_step (s : Select) :
  selectChildren (returnsE this) (returnsT this) s -> returnsS this s.
Proof.
  unfold returnsE, returnsT, returnsS.
  destruct s as [sels from wh gb hv]; simpl; intros H.
  repeat returns_step.
Qed.

Lemma renderTable_returns_step (t : Table) :
  tableChildren (returnsE this) (returnsQ this) t -> returnsT this t.
Proof.
  unfold returnsE, returnsQ, returnsT.
  destruct t; simpl; intros H; repeat returns_step.
Qed.

Lemma renderExpr_returns (e : Expr) : returnsE this e.
Proof.
  revert e. apply Expr_induction with
    (PQ := returnsQ this) (PS := returnsS this) (PT := returnsT this).
  - apply renderExpr_returns_step.
  - apply renderQuery_returns_step.
  - apply renderSelect_returns_step.
  - apply renderTable_returns_step.
Qed.

Lemma renderQuery_returns (q : Query) : returnsQ this q.
Proof.
  revert q. apply Query_induction with
    (PE := returnsE this) (PS := returnsS this) (PT := returnsT this).
  - apply renderExpr_returns_step.
  - apply renderQuery_returns_step.
  - apply renderSelect_returns_step.
  - apply renderTable_returns_step.
Qed.

Lemma renderSelect_returns (s : Select) : returnsS this s.
Proof.
  revert s. apply Select_induction with
    (PE := returnsE this) (PQ := returnsQ this) (PT := returnsT this).
  - apply renderExpr_returns_step.
  - apply renderQuery_returns_step.
  - apply renderSelect_returns_step.
  - apply renderTable_returns_step.
Qed.

Lemma renderTable_returns (t : Table) : returnsT this t.
Proof.
  revert t. apply Table_induction with
    (PE := returnsE this) (PQ := returnsQ this) (PS := returnsS this).
  - apply renderExpr_returns_step.
  - apply renderQuery_returns_step.
  - apply renderSelect_returns_step.
  - apply renderTable_returns_step.
Qed.

Ltac returns_statement :=
  repeat first
    [ exact (renderExpr_returns _)
    | exact (renderQuery_returns _)
    | exact (renderSelect_returns _)
    | exact (renderTable_returns _)
    | returns_step
    | progress unfold renderCell, renderAssignment, renderDefaultOption,
        renderDomainConstraint, renderCheckConstraint,
        renderColumnConstraint, renderTableConstraint,
        renderColumnDefinition, renderPrivilege, supportedCell,
        supportedAssignments, supportedDefaultOption, supportedCheck,
        supportedColumnConstraint, supportedTableConstraint,
        supportedColumnDefinition ].

Lemma renderDomainDefinition_never (def : DomainDefinition) :
  returnsWhen (renderDomainDefinition this def) false.
Proof. destruct def; simpl; returns_statement. Qed.

Lemma text_returnsWhen (m : Render string) (b : bool) :
  returnsWhen m b ->
  forall ps,
    (exists sql ps', text m ps = (Return (Text sql), ps')) <-> b = true.
Proof.
  intros Hm ps. unfold text, bind. split.
  - intros (sql & ps' & H). apply (Hm ps).
    destruct (m ps) as [[a | e] p1]; [| discriminate H].
    exists a, p1. reflexivity.
  - intros Hb. apply (Hm ps) in Hb. destruct Hb as (a & p1 & Em).
    rewrite Em. exists a, p1. reflexivity.
Qed.

(** X3: renderStatement returns SQL text exactly for the supported
    statements of its mode, whatever buffer it starts from. A CreateSchema
    statement always returns text, whatever its definitions hold, because
    they are not rendered. Any other statement throws, or is handed back
    unrendered, exactly when it is a revoke or drop statement or a domain
    definition, or when it holds a cast, an extension expression or table,
    inline a custom literal or an invalid date, an insert without values, a
    column typed by a data type, or a grant privilege with a column list. *)
Theorem renderStatement_returns_text_iff (statement : Statement)
    (ps : list any) :
  (exists sql ps',
      renderStatement this statement ps = (Return (Text sql), ps'))
  <-> supportedStatement (negb (_paramsMode this)) statement = true.
Proof.
  destruct statement as [q | i | u | d | u | d | c | t | v | g | d | a
                        | r | d | d | d | d];
    unfold renderStatement;
    try (split; [intros (sql & ps' & H); discriminate H | discriminate]);
    apply text_returnsWhen.
  - exact (renderQuery_returns q).
  - destruct i as [t c [[| rows | q] |]]; simpl; returns_statement.
  - destruct u; simpl; returns_statement.
  - destruct d; simpl; returns_statement.
  - destruct u; simpl; returns_statement.
  - destruct d; simpl; returns_statement.
  - destruct c; simpl; returns_statement.
  - destruct t; simpl; returns_statement.
  - destruct v; simpl; returns_statement.
  - destruct g as [[privileges |] n o gs go]; simpl; returns_statement.
  - exact (renderDomainDefinition_never d).
  - destruct a; simpl; returns_statement.
Qed.

End Support.

Section ParameterMode.

Context {host : Host}.
Variable this : Renderer.
Hypothesis parameterMode : _paramsMode this = true.

(** ** What parameter mode pushes *)

Lemma pushes_ret {A} (a : A) : pushesOnReturn (ret a) [].
Proof.
  intros ps b ps' H. inversion H. simpl. rewrite app_nil_r. reflexivity.
Qed.

Lemma pushes_vacuous {A} (m : Render A) (literals : list Literal) :
  returnsWhen m false -> pushesOnReturn m literals.
Proof.
  intros Hm ps a ps' H.
  assert (Hf : false = true) by (apply (Hm ps); exists a, ps'; exact H).
  discriminate Hf.
Qed.

Lemma pushes_bind {A B} (m : Render A) (k : A -> Render B) l1 l2 :
  pushesOnReturn m l1 -> (forall a, pushesOnReturn (k a) l2) ->
  pushesOnReturn (bind m k) (l1 ++ l2).
Proof.
  intros Hm Hk ps b ps' H. unfold bind in H.
  destruct (m ps) as [[a | e] p1] eqn:Em; [| discriminate H].
  apply Hm in Em. apply Hk in H. subst.
  rewrite map_app, app_assoc. reflexivity.
Qed.

Lemma pushes_bind_ret {A B} (m : Render A) (h : A -> B) l :
  pushesOnReturn m l -> pushesOnReturn (bind m (fun a => ret (h a))) l.
Proof.
  intros Hm. rewrite <- (app_nil_r l).
  apply pushes_bind; [exact Hm | intros a; apply pushes_ret].
Qed.

Lemma pushes_mapM {A B} (f : A -> Render B) (g : A -> list Literal)
    (xs : list A) :
  Forall (fun x => pushesOnReturn (f x) (g x)) xs ->
  pushesOnReturn (mapM f xs) (flat_map g xs).
Proof.
  induction 1 as [| x xs Hx _ IH]; simpl.
  - apply pushes_ret.
  - apply pushes_bind; [exact Hx | intros y].
    apply pushes_bind_ret. exact IH.
Qed.

Lemma pushes_mapM_nothing {A B} (f : A -> Render B) (xs : list A) :
  Forall (fun x => pushesOnReturn (f x) []) xs ->
  pushesOnReturn (mapM f xs) [].
Proof.
  intros H. apply (pushes_mapM f (fun _ => [])) in H.
  replace (flat_map (fun _ : A => @nil Literal) xs) with (@nil Literal) in H;
    [exact H |].
  clear H. induction xs; simpl; [reflexivity | assumption].
Qed.

Lemma pushes_renderLiteral (literal : Literal) :
  pushesOnReturn (renderLiteral this literal) [literal].
Proof.
  intros ps a ps' H. rewrite renderLiteral_paramsMode in H by assumption.
  inversion H. reflexivity.
Qed.

Ltac pushes_step :=
  match goal with
  | H : _ /\ _ |- _ => destruct H
  | |- pushesOnReturn (ret _) [] => apply pushes_ret
  | |- pushesOnReturn (throw _) _ =>
      apply pushes_vacuous; apply returnsWhen_throw
  | |- pushesOnReturn (renderLiteral _ _) _ => apply pushes_renderLiteral
  | |- pushesOnReturn (bind _ (fun _ => ret _)) _ => apply pushes_bind_ret
  | |- pushesOnReturn (bind _ _) (_ ++ _) =>
      apply pushes_bind; [| intros ?]
  | |- pushesOnReturn (ifPresent ?x _) (pushedWhen _ ?x) =>
      destruct x; simpl in *
  | H : Forall _ ?xs |- pushesOnReturn (mapM _ ?xs) (flat_map _ ?xs) =>
      apply pushes_mapM; eapply Forall_impl; [| exact H];
      cbv beta; intros ? ?
  | |- pushesOnReturn (mapM _ ?xs) (flat_map _ ?xs) =>
      apply pushes_mapM; apply Forall_forall; intros ? _
  | |- pushesOnReturn (mapM _ ?xs) [] =>
      apply pushes_mapM_nothing; apply Forall_forall; intros ? _
  | |- pushesOnReturn (match ?x with _ => _ end) _ =>
      match type of x with
      | list _ => destruct x; [simpl; apply pushes_ret |]
      | _ => destruct x; simpl in *
      end
  | |- True => exact I
  | |- _ => assumption
  end.

Lemma renderExpr_pushes_step (e : Expr) :
  exprChildren
    (fun e => pushesOnReturn (renderExpr this e) (pushedExpr e))
    (fun q => pushesOnReturn (renderQuery this q) (pushedQuery q)) e ->
  pushesOnReturn (renderExpr this e) (pushedExpr e).
Proof.
  destruct e;
    try (intros _; apply pushes_vacuous; exact (renderExpr_returns this _));
    simpl; intros H; repeat pushes_step.
Qed.

Lemma renderQuery_pushes_step (q : Query) :
  queryChildren
    (fun e => pushesOnReturn (renderExpr this e) (pushedExpr e))
    (fun q => pushesOnReturn (renderQuery this q) (pushedQuery q))
    (fun s => pushesOnReturn (renderSelect this s) (pushedSelect s)) q ->
  pushesOnReturn (renderQuery this q) (pushedQuery q).
Proof.
  destruct q as [ctes sel us ord lim off]; simpl; intros H.
  repeat pushes_step.
Qed.

Lemma renderSelect_pushes_step (s : Select) :
  selectChildren
    (fun e => pushesOnReturn (renderExpr this e) (pushedExpr e))
    (fun t => pushesOnReturn (renderTable this t) (pushedTable t)) s ->
  pushesOnReturn (renderSelect this s) (pushedSelect s).
Proof.
  destruct s as [sels from wh gb hv]; simpl; intros H.
  repeat pushes_step.
Qed.

Lemma renderTable_pushes_step (t : Table) :
  tableChildren
    (fun e => pushesOnReturn (renderExpr this e) (pushedExpr e))
    (fun q => pushesOnReturn (renderQuery this q) (pushedQuery q)) t ->
  pushesOnReturn (renderTable this t) (pushedTable t).
Proof.
  destruct t;
    try (intros _; apply pushes_vacuous; exact (renderTable_returns this _));
    simpl; intros H; repeat pushes_step.
Qed.

Lemma renderExpr_pushes (e : Expr) :
  pushesOnReturn (renderExpr this e) (pushedExpr e).
Proof.
  revert e. apply Expr_induction with
    (PQ := fun q => pushesOnReturn (renderQuery this q) (pushedQuery q))
    (PS := fun s => pushesOnReturn (renderSelect this s) (pushedSelect s))
    (PT := fun t => pushesOnReturn (renderTable this t) (pushedTable t)).
  - apply renderExpr_pushes_step.
  - apply renderQuery_pushes_step.
  - apply renderSelect_pushes_step.
  - apply renderTable_pushes_step.
Qed.

Lemma renderQuery_pushes (q : Query) :
  pushesOnReturn (renderQuery this q) (pushedQuery q).
Proof.
  revert q. apply Query_induction with
    (PE := fun e => pushesOnReturn (renderExpr this e) (pushedExpr e))
    (PS := fun s => pushesOnReturn (renderSelect this s) (pushedSelect s))
    (PT := fun t => pushesOnReturn (renderTable this t) (pushedTable t)).
  - apply renderExpr_pushes_step.
  - apply renderQuery_pushes_step.
  - apply renderSelect_pushes_step.
  - apply renderTable_pushes_step.
Qed.

Ltac pushes_leaf :=
  repeat first
    [ exact (renderExpr_pushes _)
    | exact (renderQuery_pushes _)
    | pushes_step
    | progress unfold renderCell, renderAssignment, renderDefaultOption,
        renderDomainConstraint, renderCheckConstraint,
        renderColumnConstraint, renderTableConstraint,
        renderPrivilege, pushedCell,
        pushedAssignments, pushedDefaultOption, pushedCheck,
        pushedColumnConstraint, pushedTableConstraint, text ].

(** A column definition pushes nothing for its type, then the literal of
    its default, then the literals of its check constraints. *)
Lemma renderColumnDefinition_pushes (def : ColumnDefinition) :
  pushesOnReturn (renderColumnDefinition this def)
    (pushedColumnDefinition def).
Proof.
  destruct def as [n type d cs col].
  unfold renderColumnDefinition, pushedColumnDefinition.
  apply (pushes_bind _ _ []
           (pushedWhen pushedDefaultOption d
            ++ flat_map pushedColumnConstraint cs)%list).
  - destruct type; [apply pushes_ret |].
    apply pushes_vacuous. apply returnsWhen_throw.
  - intros typ. pushes_leaf.
Qed.

Ltac pushes_statement :=
  repeat first
    [ exact (renderColumnDefinition_pushes _)
    | pushes_leaf ].

(** X4: with paramsMode on, when renderStatement returns, the buffer has
    grown by exactly the values of the statement's literals, one value for
    each literal, in the order the render methods reach them (the limit,
    offset and ordering of a query before its selection, the FROM clause of
    a select last), whatever the placeholder style; the same holds for
    renderExpr and renderQuery. *)
Theorem parameter_mode_pushes_the_literals :
  (forall statement ps r ps',
      renderStatement this statement ps = (Return r, ps') ->
      ps' = (ps ++ map literal_val (pushedStatement statement))%list)
  /\ (forall e ps t ps',
        renderExpr this e ps = (Return t, ps') ->
        ps' = (ps ++ map literal_val (pushedExpr e))%list)
  /\ (forall q ps t ps',
        renderQuery this q ps = (Return t, ps') ->
        ps' = (ps ++ map literal_val (pushedQuery q))%list).
Proof.
  split; [| split; [exact renderExpr_pushes | exact renderQuery_pushes]].
  intros statement.
  change (pushesOnReturn (renderStatement this statement)
            (pushedStatement statement)).
  destruct statement as [q | i | u | d | u | d | c | t | v | g | d | a
                        | r | d | d | d | d];
    unfold renderStatement; try apply pushes_ret.
  - apply pushes_bind_ret. exact (renderQuery_pushes q).
  - destruct i as [t c [[| rows | q] |]]; simpl; pushes_statement.
  - destruct u; simpl; pushes_statement.
  - destruct d; simpl; pushes_statement.
  - destruct u; simpl; pushes_statement.
  - destruct d; simpl; pushes_statement.
  - destruct c; simpl; pushes_statement.
  - destruct t; simpl; pushes_statement.
  - destruct v; simpl; pushes_statement.
  - destruct g as [[privileges |] n o gs go]; simpl; pushes_statement.
  - apply pushes_bind_ret. apply pushes_vacuous.
    exact (renderDomainDefinition_never this d).
  - destruct a; simpl; pushes_statement.
Qed.

End ParameterMode.

Section ErrorsAndEdges.

Context {host : Host}.
Variable this : Renderer.

(** ** What the base renderer cannot render *)

Lemma never_returns_throws {A} (m : Render A) :
  returnsWhen m false ->
  forall ps, exists message ps', m ps = (Throw message, ps').
Proof.
  intros Hm ps. destruct (m ps) as [[a | e] p1] eqn:Em.
  - assert (Hf : false = true) by (apply (Hm ps); exists a, p1; exact Em).
    discriminate Hf.
  - exists e, p1. reflexivity.
Qed.

(** X5: the base renderer has no data types: renderDataType throws, and so
    does every rendering that needs one. A cast expression and a domain
    definition throw whatever they hold, in both modes, and a column
    definition typed by a data type throws Unimplemented before anything is
    pushed. *)
Theorem data_types_do_not_render :
  (forall e dataType ps, exists message ps',
      renderExpr this (Cast e dataType) ps = (Throw message, ps'))
  /\ (forall def ps, exists message ps',
        renderDomainDefinition this def ps = (Throw message, ps'))
  /\ (forall cname dataType default constraints collation ps,
        renderColumnDefinition this
          (mkColumnDefinition cname (inr dataType) default constraints
             collation) ps
        = (Throw "Unimplemented", ps)).
Proof.
  split; [| split].
  - intros e dt. apply never_returns_throws.
    exact (renderExpr_returns this (Cast e dt)).
  - intros def. apply never_returns_throws.
    exact (renderDomainDefinition_never this def).
  - reflexivity.
Qed.

(** ** Grants *)

Lemma renderPrivilege_unbound (p : Privilege) (ps : list any) :
  renderPrivilege None p ps =
    if hasColumns p
    then (Throw "Cannot read properties of undefined (reading 'renderIdent')",
          ps)
    else (Return (privilegeKeyword p), ps).
Proof. destruct p as [| | [cs |] | [cs |] | [cs |] |]; reflexivity. Qed.

Lemma privileges_render (privileges : list Privilege) (ps : list any) :
  existsb hasColumns privileges = false ->
  mapM (renderPrivilege None) privileges ps =
    (Return (map privilegeKeyword privileges), ps).
Proof.
  induction privileges as [| p privileges IH]; simpl; [reflexivity |].
  intros H. apply orb_false_elim in H. destruct H as [Hp Hrest].
  unfold bind at 1. rewrite renderPrivilege_unbound, Hp.
  unfold bind at 1. rewrite (IH Hrest). reflexivity.
Qed.

Lemma privileges_throw (privileges : list Privilege) (ps : list any) :
  existsb hasColumns privileges = true ->
  exists message,
    mapM (renderPrivilege None) privileges ps = (Throw message, ps).
Proof.
  induction privileges as [| p privileges IH]; simpl; [discriminate |].
  intros H. unfold bind at 1. rewrite renderPrivilege_unbound.
  destruct (hasColumns p); simpl in H.
  - eexists. reflexivity.
  - destruct (IH H) as [message Hm]. exists message.
    unfold bind at 1. rewrite Hm. reflexivity.
Qed.

(** X6: a grant with a privilege list renders exactly when no privilege of
    the list carries a column list. renderGrantStatement hands
    renderPrivilege to map without its receiver, so the read of
    this.renderIdent for a column list raises: with such a privilege the
    grant throws, and without one it returns GRANT, the privilege keywords
    joined by a comma and a space, ON and the rest; the buffer is untouched
    either way. *)
Theorem renderGrantStatement_column_lists (privileges : list Privilege)
    (objectName : Ident) (objectType : ObjectType)
    (grantees : option (list Ident)) (grantOption : bool) (ps : list any) :
  (existsb hasColumns privileges = true ->
   exists message,
     renderGrantStatement
       (mkGrantStatement (Some privileges) objectName objectType grantees
          grantOption) ps
     = (Throw message, ps))
  /\ (existsb hasColumns privileges = false ->
      exists rest,
        renderGrantStatement
          (mkGrantStatement (Some privileges) objectName objectType grantees
             grantOption) ps
        = (Return ("GRANT " ++ join ", " (map privilegeKeyword privileges)
                     ++ " ON " ++ rest), ps)).
Proof.
  split; intros H; unfold renderGrantStatement.
  - destruct (privileges_throw privileges ps H) as [message Hm].
    exists message. unfold bind. rewrite Hm. reflexivity.
  - eexists. unfold bind. rewrite (privileges_render privileges ps H).
    unfold ret. reflexivity.
Qed.

(** X7: a privilege named to the schema builder as insert, update or
    references (in either case) is made with an empty column list, and a
    grant holding it cannot be rendered: renderGrantStatement throws on
    every privilege list that comes from such a name. *)
Theorem named_column_privilege_does_not_render (args : list PrivilegeArg)
    (upperCase : bool) (n : PrivilegeName) (objectName : Ident)
    (objectType : ObjectType) (grantees : option (list Ident))
    (grantOption : bool) (ps : list any) :
  In (ArgName upperCase n) args ->
  n = NameInsert \/ n = NameUpdate \/ n = NameReferences ->
  exists message,
    renderGrantStatement
      (mkGrantStatement (Some (map makePrivilege args)) objectName objectType
         grantees grantOption) ps
    = (Throw message, ps).
Proof.
  intros Hin Hn.
  destruct (privileges_throw (map makePrivilege args) ps) as [message Hm].
  - apply existsb_exists. exists (makePrivilege (ArgName upperCase n)).
    split; [apply in_map; exact Hin |].
    destruct Hn as [-> | [-> | ->]]; reflexivity.
  - exists message. unfold renderGrantStatement, bind. rewrite Hm.
    reflexivity.
Qed.

(** ** Schemas *)

(** X8: renderCreateSchema renders none of the definitions of the schema:
    it always returns, never touches the buffer, and its text depends on
    the definitions only through which of them are domain definitions (for
    each of those it writes the source text of the render method, for the
    others nothing). *)
Theorem renderCreateSchema_ignores_definitions
    (catalog sname authorization characterSet : option Ident)
    (definitions : list SchemaElement) :
  (exists sql, forall ps,
      renderCreateSchema
        (mkCreateSchema catalog sname authorization characterSet definitions)
        ps
      = (Return sql, ps))
  /\ (forall definitions',
        map isDomainDefinition definitions
        = map isDomainDefinition definitions' ->
        renderCreateSchema
          (mkCreateSchema catalog sname authorization characterSet
             definitions)
        = renderCreateSchema
            (mkCreateSchema catalog sname authorization characterSet
               definitions')).
Proof.
  split.
  - eexists. intros ps. reflexivity.
  - intros definitions' H. unfold renderCreateSchema.
    assert (Hmap : forall f : SchemaElement -> string,
               (forall d d', isDomainDefinition d = isDomainDefinition d' ->
                             f d = f d') ->
               map f definitions = map f definitions').
    { intros f Hf. revert definitions' H.
      induction definitions as [| d ds IH]; intros [| d' ds'] H;
        simpl in H; try discriminate H; [reflexivity |].
      injection H as Hd Hds. simpl. rewrite (Hf d d' Hd), (IH ds' Hds).
      reflexivity. }
    rewrite (Hmap _); [reflexivity |].
    intros [d | d | d | d | d] [d' | d' | d' | d' | d'] Hd;
      simpl in Hd; try discriminate Hd; reflexivity.
Qed.

(** ** Placeholders and identifiers *)

Lemma to_uint_nonnil (n : nat) : Nat.to_uint n <> Decimal.Nil.
Proof.
  rewrite <- (DecimalNat.Unsigned.of_to n) at 1.
  rewrite DecimalNat.Unsigned.to_of. apply DecimalFacts.unorm_nonnil.
Qed.

Lemma length_toString_injective (n m : nat) :
  length_toString n = length_toString m -> n = m.
Proof.
  unfold length_toString. intros H.
  apply DecimalNat.Unsigned.to_uint_inj.
  assert (Hs : NilZero.uint_of_string (NilZero.string_of_uint (Nat.to_uint n))
               = NilZero.uint_of_string
                   (NilZero.string_of_uint (Nat.to_uint m)))
    by (rewrite H; reflexivity).
  rewrite !NilZero.usu in Hs by apply to_uint_nonnil.
  injection Hs as Hs. exact Hs.
Qed.

(** X9: the numbered placeholders tell the buffer positions apart: in the
    dollar style two placeholders are equal only for the same position; in
    the question-mark style every position has the same placeholder. *)
Theorem renderPlaceholder_positions (n m : nat) :
  (_placeHolderStyle this = Dollar ->
   renderPlaceholder this n = renderPlaceholder this m -> n = m)
  /\ (_placeHolderStyle this = Question ->
      renderPlaceholder this n = renderPlaceholder this m).
Proof.
  unfold renderPlaceholder. split; intros ->.
  - intros H. injection H as H. apply length_toString_injective. exact H.
  - reflexivity.
Qed.

Lemma length_append (a b : string) :
  String.length (a ++ b) = String.length a + String.length b.
Proof. induction a as [| c a IH]; simpl; [| rewrite IH]; reflexivity. Qed.

Lemma append_cancel_r (a b c : string) : a ++ c = b ++ c -> a = b.
Proof.
  revert b. induction a as [| x a IH]; intros [| y b] H; simpl in H.
  - reflexivity.
  - apply (f_equal String.length) in H. simpl in H.
    rewrite length_append in H. lia.
  - apply (f_equal String.length) in H. simpl in H.
    rewrite length_append in H. lia.
  - injection H as -> H. f_equal. apply IH. exact H.
Qed.

(** X10: quoting keeps identifiers apart: two identifiers with the same
    rendering are the same identifier. *)
Theorem renderIdent_injective (a b : Ident) :
  renderIdent a = renderIdent b -> a = b.
Proof.
  destruct a as [a], b as [b]. unfold renderIdent. simpl. intros H.
  injection H as H. apply append_cancel_r in H. rewrite H. reflexivity.
Qed.

End ErrorsAndEdges.

(** * The query builder *)

Section QueryBuilder.

Context {host : Host}.
Variable this : Renderer.

Lemma unions_last (unions : list SetOp) :
  unions <> [] ->
  exists init func all s,
    unions = (init ++ [mkSetOp func all s])%list
    /\ nth_error unions (List.length unions - 1) = Some (mkSetOp func all s)
    /\ firstn (List.length unions - 1) unions = init.
Proof.
  intros Hne. destruct (exists_last Hne) as (init & [func all s] & ->).
  exists init, func, all, s. split; [reflexivity |].
  rewrite length_app. simpl.
  replace (List.length init + 1 - 1) with (List.length init) by lia.
  split.
  - rewrite nth_error_app2 by lia. rewrite Nat.sub_diag. reflexivity.
  - rewrite firstn_app, Nat.sub_diag, firstn_all. simpl.
    apply app_nil_r.
Qed.

Lemma select_with_unions (cols : list Col) ctes selection init func all s
    ordering lim off :
  select cols
    (mkQuery ctes selection (init ++ [mkSetOp func all s])%list ordering
       lim off)
  = mkQuery ctes selection
      (init ++ [mkSetOp func all
                  (addSelections (map columnSelection cols) s)])%list
      ordering lim off.
Proof.
  assert (Hne : (init ++ [mkSetOp func all s])%list <> [])
    by (destruct init; discriminate).
  destruct (unions_last _ Hne) as (init' & f' & a' & s' & Heq & Hnth & Hfirst).
  apply app_inj_tail in Heq. destruct Heq as [<- Heq].
  injection Heq as <- <- <-.
  unfold select.
  destruct (init ++ [mkSetOp func all s])%list as [| u us] eqn:E;
    [contradiction Hne; reflexivity |].
  rewrite Hnth, Hfirst. reflexivity.
Qed.

(** X11: select adds its columns to the select that is being built: to the
    root select of a query without unions, and otherwise to the select of
    the last union, leaving the root select and the unions before the last
    as they are. The CTEs, limit and offset are never touched. *)
Theorem select_targets_the_last_select (cols : list Col) (query : Query) :
  (query_unions query = [] ->
   query_selection (select cols query)
   = addSelections (map columnSelection cols) (query_selection query)
   /\ query_unions (select cols query) = [])
  /\ (query_unions query <> [] ->
      query_selection (select cols query) = query_selection query
      /\ exists init func all s,
           query_unions query = (init ++ [mkSetOp func all s])%list
           /\ query_unions (select cols query)
              = (init ++ [mkSetOp func all
                            (addSelections (map columnSelection cols) s)])%list)
  /\ query_ctes (select cols query) = query_ctes query
  /\ query_limit (select cols query) = query_limit query
  /\ query_offset (select cols query) = query_offset query.
Proof.
  destruct query as [ctes selection unions ordering lim off].
  destruct unions as [| u us].
  - simpl. split; [split; reflexivity |]. split; [| repeat split].
    intros Hne. contradiction Hne. reflexivity.
  - assert (Hne : u :: us <> []) by discriminate.
    destruct (unions_last (u :: us) Hne) as (init & f & a & s & Heq & _ & _).
    rewrite Heq. rewrite select_with_unions. simpl.
    split; [intros Hnil; destruct init; discriminate Hnil |].
    split; [| repeat split].
    intros _. split; [reflexivity |].
    exists init, f, a, s. split; reflexivity.
Qed.

Lemma addSelections_app (a b : list Selection) (s : Select) :
  addSelections (a ++ b) s = addSelections b (addSelections a s).
Proof. destruct s. simpl. rewrite app_assoc. reflexivity. Qed.

Lemma addSelections_nil (s : Select) : addSelections [] s = s.
Proof. destruct s. simpl. rewrite app_nil_r. reflexivity. Qed.

(** X12: calls of select compose: selecting nothing leaves the query as it
    is, and selecting two lists of columns in two calls gives the query of
    one call with both lists. *)
Theorem select_composes (a b : list Col) (query : Query) :
  select [] query = query
  /\ select (a ++ b) query = select b (select a query).
Proof.
  destruct query as [ctes selection unions ordering lim off].
  destruct unions as [| u us].
  - simpl. rewrite addSelections_nil, map_app, addSelections_app.
    split; reflexivity.
  - assert (Hne : u :: us <> []) by discriminate.
    destruct (unions_last (u :: us) Hne) as (init & f & al & s & -> & _ & _).
    rewrite !select_with_unions. simpl map.
    rewrite addSelections_nil, map_app, addSelections_app.
    split; reflexivity.
Qed.

Lemma identifiers_render (parts : list string) (ps : list any) :
  mapM (renderExpr this) (map (fun p => EIdent (mkIdent p)) parts) ps
  = (Return (map dquoted parts), ps).
Proof.
  induction parts as [| p parts IH]; simpl; [reflexivity |].
  unfold bind at 1. simpl. unfold bind at 1. rewrite IH. reflexivity.
Qed.

(** X13: a column given to the builder by name renders, in both modes and
    without touching the buffer, as the parts of the name between its dots,
    each in double quotes, joined by dots: a name without a dot is one
    quoted identifier. *)
Theorem column_name_renders_quoted_parts (c : string) (ps : list any) :
  renderExpr this (columnExpr c) ps
  = (Return (join "." (map dquoted (split dot c))), ps).
Proof.
  unfold columnExpr.
  destruct (split dot c) as [| part [| part' parts]] eqn:E.
  - reflexivity.
  - reflexivity.
  - change (bind (mapM (renderExpr this)
                    (map (fun p => EIdent (mkIdent p))
                       (part :: part' :: parts)))
              (fun texts => ret (join "." texts)) ps
            = (Return (join "." (map dquoted (part :: part' :: parts))), ps)).
    unfold bind. rewrite identifiers_render. reflexivity.
Qed.

End QueryBuilder.

Section BuilderAndRenderer.

Context {host : Host}.
Variable this : Renderer.

Lemma append_nil_r (a : string) : a ++ "" = a.
Proof. induction a as [| c a IH]; simpl; [| rewrite IH]; reflexivity. Qed.

(** X14: with paramsMode off, limit(n) with a number on a query that has
    neither limit nor offset adds the text LIMIT and the number behind the
    text of the query, and changes nothing else: a query that throws still
    throws the same error. *)
Theorem limit_appends_to_inline_text (n : number) (query : Query)
    (ps : list any) :
  _paramsMode this = false ->
  query_limit query = None ->
  query_offset query = None ->
  renderQuery this (limit (inr n) query) ps =
    match renderQuery this query ps with
    | (Return t, ps') =>
        (Return (t ++ " LIMIT " ++ Number_toString n), ps')
    | (Throw e, ps') => (Throw e, ps')
    end.
Proof.
  intros Hmode Hlim Hoff.
  destruct query as [ctes selection unions ordering lim off].
  simpl in Hlim, Hoff. subst lim off.
  unfold limit, numberOrExpr. simpl.
  unfold bind, renderLiteral. rewrite Hmode. unfold ret.
  repeat match goal with
         | |- context [match ?m ?p with pair _ _ => _ end] =>
             destruct (m p) as [[? | ?] ?]; try reflexivity
         end.
  f_equal. f_equal.
  rewrite ?append_assoc. simpl. rewrite ?append_nil_r.
  rewrite ?append_assoc. reflexivity.
Qed.

(** X15: with(alias, sub) on a query without CTEs puts the CTE in front, in
    the buffer as in the text, in both modes: the subquery is rendered
    first, from the buffer the call starts with, then the query from where
    the subquery left the buffer, and the text is WITH, the quoted alias, AS
    and the text of the subquery in parentheses, a space and the text of
    the query. *)
Theorem with_puts_the_cte_in_front (alias : string) (sub query : Query)
    (ps : list any) (subText : string) (ps1 : list any) :
  query_ctes query = [] ->
  renderQuery this sub ps = (Return subText, ps1) ->
  renderQuery this (with_ alias sub query) ps =
    match renderQuery this query ps1 with
    | (Return t, ps') =>
        (Return ("WITH " ++ dquoted alias ++ " AS (" ++ subText ++ ") " ++ t),
         ps')
    | (Throw e, ps') => (Throw e, ps')
    end.
Proof.
  intros Hctes Hsub.
  destruct query as [ctes selection unions ordering lim off].
  simpl in Hctes. subst ctes.
  unfold with_. simpl.
  unfold bind. rewrite Hsub. unfold ret.
  repeat match goal with
         | |- context [match ?m ?p with pair _ _ => _ end] =>
             destruct (m p) as [[? | ?] ?]; try reflexivity
         end.
  f_equal. f_equal. unfold renderIdent, dquoted. simpl.
  rewrite ?append_assoc. simpl. rewrite ?append_assoc. reflexivity.
Qed.

(** X16: a value given to lit comes back from the renderer: for a number, a
    string, a boolean or null, the literal lit makes is pushed as that very
    value in parameter mode, with the placeholder of its position as text,
    and is written in the inline form of that value in inline mode. *)
Theorem lit_round_trip (l : any) (ps : list any) :
  isPrimitive l = true ->
  (_paramsMode this = true ->
   renderExpr this (lit l) ps
   = (Return (renderPlaceholder this (S (List.length ps))),
      (ps ++ [l])%list))
  /\ (_paramsMode this = false ->
      renderExpr this (lit l) ps = (Return (inlineValue l), ps)).
Proof.
  intros Hl. unfold lit. simpl. unfold renderLiteral.
  split; intros ->; destruct l; try discriminate Hl; reflexivity.
Qed.

(** X17: an assertion made by createAssertion always carries a check time,
    deferrable unless said otherwise and not initially deferred unless said
    otherwise: the statement is added behind the statements of the builder,
    and whenever its search query renders, it renders as CREATE ASSERTION,
    the quoted name, CHECK and the query in parentheses, and the check-time
    phrase, which without options is INITIALLY IMMEDIATE DEFERRABLE. *)
Theorem createAssertion_renders_with_check_time (name : string)
    (search : Query) (initially deferrableOpt : option bool)
    (statements : list Statement) :
  exists statement,
    createAssertion name search initially deferrableOpt statements
    = (statements ++ [statement])%list
    /\ forall ps q ps',
         renderQuery this search ps = (Return q, ps') ->
         renderStatement this statement ps =
           (Return
              (Text ("CREATE ASSERTION " ++ dquoted name ++ " CHECK (" ++ q
                       ++ ") INITIALLY "
                       ++ (if match initially with
                               | Some b => b
                               | None => false
                               end
                           then "DEFERRED" else "IMMEDIATE")
                       ++ " "
                       ++ (if match deferrableOpt with
                               | Some b => b
                               | None => true
                               end
                           then "DEFERRABLE" else "NOT DEFERRABLE"))),
            ps').
Proof.
  eexists. split; [reflexivity |].
  intros ps q ps' Hq. simpl. unfold text, bind. rewrite Hq. unfold ret.
  f_equal. f_equal. f_equal.
  unfold renderIdent, dquoted, renderAttributes, renderConstraintCheckTime.
  simpl.
  destruct initially as [[|] |], deferrableOpt as [[|] |]; simpl;
    rewrite ?append_assoc; simpl; rewrite ?append_assoc; reflexivity.
Qed.

(** X20: a positioned statement is the plain statement without a WHERE
    expression, followed by WHERE CURRENT OF and the quoted cursor: the
    positioned update pushes and throws exactly as the update of the same
    assignments does, and the positioned delete always returns. *)
Theorem positioned_statements_add_the_cursor (table cursor : Ident)
    (assignments : list (Ident * Cell)) (ps : list any) :
  renderUpdatePositioned this
    (mkUpdatePositioned table assignments cursor) ps
  = match renderUpdate this (mkUpdate table assignments None) ps with
    | (Return t, ps') =>
        (Return (t ++ " WHERE CURRENT OF " ++ renderIdent cursor), ps')
    | (Throw e, ps') => (Throw e, ps')
    end
  /\ renderDeletePositioned (mkDeletePositioned table cursor) ps
     = match renderDelete this (mkDelete table None) ps with
       | (Return t, ps') =>
           (Return (t ++ " WHERE CURRENT OF " ++ renderIdent cursor), ps')
       | (Throw e, ps') => (Throw e, ps')
       end.
Proof.
  split.
  - unfold renderUpdatePositioned, renderUpdate, ifPresent, bind, ret.
    destruct (mapM (renderAssignment this) assignments ps) as [[sets | e] p1];
      [| reflexivity].
    f_equal. f_equal.
    rewrite ?append_assoc. simpl. rewrite ?append_assoc.
    rewrite ?append_nil_r. reflexivity.
  - unfold renderDeletePositioned, renderDelete, ifPresent, bind, ret.
    f_equal. f_equal.
    rewrite ?append_assoc. simpl. rewrite ?append_assoc. reflexivity.
Qed.

End BuilderAndRenderer.

(** * Objects *)

Section ObjectHelpers.

Variable V : Type.

Lemma get_set (k k' : string) (v : V) (o : JsObject V) :
  get V k (set V k' v o) = if String.eqb k k' then Some v else get V k o.
Proof.
  induction o as [| [k0 v0] o IH]; simpl.
  - reflexivity.
  - destruct (String.eqb k' k0) eqn:E; simpl.
    + apply String.eqb_eq in E. subst k0.
      destruct (String.eqb k k'); reflexivity.
    + rewrite IH. destruct (String.eqb k k0) eqn:E0; [| reflexivity].
      apply String.eqb_eq in E0. subst k0.
      rewrite String.eqb_sym, E. reflexivity.
Qed.

Lemma get_absent (k : string) (o : JsObject V) :
  ~ In k (map fst o) -> get V k o = None.
Proof.
  induction o as [| [k0 v0] o IH]; simpl; [reflexivity |].
  intros Hn. destruct (String.eqb k k0) eqn:E.
  - apply String.eqb_eq in E. subst k0. exfalso. apply Hn. left. reflexivity.
  - apply IH. intros Hin. apply Hn. right. exact Hin.
Qed.

Lemma get_spread (k : string) (source : JsObject V) :
  NoDup (map fst source) ->
  forall target,
    get V k (spread V target source) =
      match get V k source with
      | Some v => Some v
      | None => get V k target
      end.
Proof.
  unfold spread.
  induction source as [| [k0 v0] source IH]; simpl; intros Hnd target.
  - reflexivity.
  - inversion Hnd as [| x xs Hnotin Hnd']; subst.
    rewrite (IH Hnd'). rewrite get_set.
    destruct (String.eqb k k0) eqn:E.
    + apply String.eqb_eq in E. subst k0.
      rewrite (get_absent k source Hnotin). reflexivity.
    + reflexivity.
Qed.

(** X18: copy(obj, vals) reads as vals where vals has the property and as
    obj elsewhere: the new values win, every other property of obj is
    kept, and no property appears that neither object has. *)
Theorem copy_reads_vals_then_obj (obj vals : JsObject V) (k : string) :
  NoDup (map fst obj) ->
  NoDup (map fst vals) ->
  get V k (copy V obj vals) =
    match get V k vals with
    | Some v => Some v
    | None => get V k obj
    end.
Proof.
  intros Hobj Hvals. unfold copy.
  rewrite (get_spread k vals Hvals), (get_spread k obj Hobj). simpl.
  destruct (get V k vals); [reflexivity |].
  destruct (get V k obj); reflexivity.
Qed.

(** X19: tag(t, obj) has the properties of obj and reads t as its _tag,
    unless obj has a _tag of its own, which then stays. *)
Theorem tag_keeps_an_own_tag (t : V) (obj : JsObject V) (k : string) :
  NoDup (map fst obj) ->
  get V "_tag" (tag V t obj) =
    match get V "_tag" obj with
    | Some own => Some own
    | None => Some t
    end
  /\ (k <> "_tag" -> get V k (tag V t obj) = get V k obj).
Proof.
  intros Hobj. unfold tag. split.
  - rewrite (get_spread "_tag" obj Hobj). reflexivity.
  - intros Hk. rewrite (get_spread k obj Hobj). simpl.
    apply String.eqb_neq in Hk. rewrite Hk.
    destruct (get V k obj); reflexivity.
Qed.

End ObjectHelpers.

(** * Runs of the general properties on the concrete host *)

(** Inline, the insert of the test has one outcome from every buffer. *)
Lemma inline_rendering_ignores_buffer_witness :
  _paramsMode inlineRenderer = false
  /\ exists outcome, forall ps,
       renderStatement inlineRenderer (SInsert employeeInsert) ps
       = (outcome, ps).
Proof.
  split; [reflexivity |].
  exact (proj1 (inline_rendering_ignores_buffer inlineRenderer eq_refl)
           (SInsert employeeInsert)).
Defined.

(** The insert of the test is supported inline, and returns text; a query
    that selects the invalid date is not, and returns none. *)
Lemma renderStatement_returns_text_iff_witness :
  supportedStatement (negb (_paramsMode inlineRenderer))
    (SInsert employeeInsert) = true
  /\ (exists sql ps',
        renderStatement inlineRenderer (SInsert employeeInsert) []
        = (Return (Text sql), ps'))
  /\ supportedStatement (negb (_paramsMode inlineRenderer))
       (SQuery selectInvalidDate)
     = false
  /\ ~ (exists sql ps',
          renderStatement inlineRenderer
            (SQuery selectInvalidDate) []
          = (Return (Text sql), ps')).
Proof.
  assert (H : supportedStatement (negb (_paramsMode inlineRenderer))
                (SInsert employeeInsert) = true) by reflexivity.
  split; [exact H |].
  split; [exact (proj2 (renderStatement_returns_text_iff inlineRenderer
                          (SInsert employeeInsert) []) H) |].
  split; [reflexivity |].
  intros Hret.
  apply (proj1 (renderStatement_returns_text_iff inlineRenderer
                  (SQuery selectInvalidDate) [])) in Hret.
  discriminate Hret.
Defined.

(** The query with a literal and a limit pushes the limit first. *)
Lemma parameter_mode_pushes_the_literals_witness :
  _paramsMode questionRenderer = true
  /\ renderStatement questionRenderer (SQuery selectFiveLimitTen) []
     = (Return (Text "SELECT ? LIMIT ?"),
        [@JNumber SampleHost (integer 10); @JNumber SampleHost (integer 5)])
  /\ [@JNumber SampleHost (integer 10); @JNumber SampleHost (integer 5)]
     = ([] ++ map literal_val
                (pushedStatement (SQuery selectFiveLimitTen)))%list.
Proof.
  assert (H : renderStatement questionRenderer (SQuery selectFiveLimitTen) []
              = (Return (Text "SELECT ? LIMIT ?"),
                 [@JNumber SampleHost (integer 10); @JNumber SampleHost (integer 5)]))
    by reflexivity.
  split; [reflexivity | split; [exact H |]].
  exact (proj1 (parameter_mode_pushes_the_literals questionRenderer eq_refl)
           (SQuery selectFiveLimitTen) [] _ _ H).
Defined.

(** A grant of select and of insert on a column, and one of select and
    usage. *)
Lemma renderGrantStatement_column_lists_witness :
  existsb hasColumns [SelectPrivilege; InsertPrivilege (Some [mkIdent "id"])]
  = true
  /\ (exists message,
        renderGrantStatement
          (mkGrantStatement
             (Some [SelectPrivilege; InsertPrivilege (Some [mkIdent "id"])])
             (mkIdent "employee") OTable None false)
          (@nil (@any SampleHost))
        = (Throw message, []))
  /\ existsb hasColumns [SelectPrivilege; UsagePrivilege] = false
  /\ (exists rest,
        renderGrantStatement
          (mkGrantStatement (Some [SelectPrivilege; UsagePrivilege])
             (mkIdent "employee") OTable None false)
          (@nil (@any SampleHost))
        = (Return ("GRANT " ++ join ", "
                                 (map privilegeKeyword
                                    [SelectPrivilege; UsagePrivilege])
                     ++ " ON " ++ rest), [])).
Proof.
  split; [reflexivity | split; [| split; [reflexivity |]]].
  - exact (proj1 (renderGrantStatement_column_lists
                    [SelectPrivilege; InsertPrivilege (Some [mkIdent "id"])]
                    (mkIdent "employee") OTable None false [])
             eq_refl).
  - exact (proj2 (renderGrantStatement_column_lists
                    [SelectPrivilege; UsagePrivilege]
                    (mkIdent "employee") OTable None false [])
             eq_refl).
Defined.

(** A grant of select and INSERT, both given by name. *)
Lemma named_column_privilege_does_not_render_witness :
  In (ArgName true NameInsert)
    [ArgName false NameSelect; ArgName true NameInsert]
  /\ (NameInsert = NameInsert \/ NameInsert = NameUpdate
      \/ NameInsert = NameReferences)
  /\ exists message,
       renderGrantStatement
         (mkGrantStatement
            (Some (map makePrivilege
                     [ArgName false NameSelect; ArgName true NameInsert]))
            (mkIdent "employee") OTable None false)
         (@nil (@any SampleHost))
       = (Throw message, []).
Proof.
  assert (Hin : In (ArgName true NameInsert)
                  [ArgName false NameSelect; ArgName true NameInsert])
    by (right; left; reflexivity).
  assert (Hn : NameInsert = NameInsert \/ NameInsert = NameUpdate
               \/ NameInsert = NameReferences) by (left; reflexivity).
  split; [exact Hin | split; [exact Hn |]].
  exact (named_column_privilege_does_not_render
           [ArgName false NameSelect; ArgName true NameInsert] true
           NameInsert (mkIdent "employee") OTable None false [] Hin Hn).
Defined.

(** The third placeholder, in both styles. *)
Lemma renderPlaceholder_positions_witness :
  _placeHolderStyle dollarRenderer = Dollar
  /\ renderPlaceholder dollarRenderer 3 = renderPlaceholder dollarRenderer 3
  /\ 3 = 3
  /\ _placeHolderStyle questionRenderer = Question
  /\ renderPlaceholder questionRenderer 3
     = renderPlaceholder questionRenderer 4.
Proof.
  split; [reflexivity | split; [reflexivity | split; [| split]]].
  - exact (proj1 (renderPlaceholder_positions dollarRenderer 3 3)
             eq_refl eq_refl).
  - reflexivity.
  - exact (proj2 (renderPlaceholder_positions questionRenderer 3 4) eq_refl).
Defined.

Lemma renderIdent_injective_witness :
  renderIdent (mkIdent "id") = renderIdent (mkIdent "id")
  /\ mkIdent "id" = mkIdent "id".
Proof.
  split; [reflexivity |].
  exact (renderIdent_injective (mkIdent "id") (mkIdent "id") eq_refl).
Defined.

(** select on a query with a union leaves the root select alone. *)
Lemma select_targets_the_last_select_witness :
  query_unions starUnionStar <> []
  /\ query_selection (select [ColName "a.b"] starUnionStar)
     = query_selection starUnionStar.
Proof.
  assert (Hne : query_unions starUnionStar <> []) by discriminate.
  split; [exact Hne |].
  exact (proj1 (proj1 (proj2 (select_targets_the_last_select
                                [ColName "a.b"] starUnionStar)) Hne)).
Defined.

(** limit(10) on the query that selects 5. *)
Lemma limit_appends_to_inline_text_witness :
  _paramsMode inlineRenderer = false
  /\ query_limit (mkQuery [] (selectOf [num 5]) [] [] None None) = None
  /\ query_offset (mkQuery [] (selectOf [num 5]) [] [] None None) = None
  /\ renderQuery inlineRenderer
       (@limit SampleHost (inr (integer 10))
          (mkQuery [] (selectOf [num 5]) [] [] None None)) []
     = (Return "SELECT 5 LIMIT 10", []).
Proof.
  split; [reflexivity | split; [reflexivity | split; [reflexivity |]]].
  exact (eq_trans
           (@limit_appends_to_inline_text SampleHost inlineRenderer (integer 10)
              (mkQuery [] (selectOf [num 5]) [] [] None None) []
              eq_refl eq_refl eq_refl)
           eq_refl).
Defined.

(** with('t', SELECT 5) on SELECT 7, in parameter mode. *)
Lemma with_puts_the_cte_in_front_witness :
  query_ctes (mkQuery [] (selectOf [num 7]) [] [] None None) = []
  /\ renderQuery dollarRenderer
       (mkQuery [] (selectOf [num 5]) [] [] None None) []
     = (Return "SELECT $1", [@JNumber SampleHost (integer 5)])
  /\ renderQuery dollarRenderer
       (with_ "t" (mkQuery [] (selectOf [num 5]) [] [] None None)
          (mkQuery [] (selectOf [num 7]) [] [] None None)) []
     = (Return ("WITH " ++ dquoted "t" ++ " AS (SELECT $1) SELECT $2"),
        [@JNumber SampleHost (integer 5); @JNumber SampleHost (integer 7)]).
Proof.
  split; [reflexivity | split; [reflexivity |]].
  exact (eq_trans
           (with_puts_the_cte_in_front dollarRenderer "t"
              (mkQuery [] (selectOf [num 5]) [] [] None None)
              (mkQuery [] (selectOf [num 7]) [] [] None None)
              [] "SELECT $1" [@JNumber SampleHost (integer 5)] eq_refl eq_refl)
           eq_refl).
Defined.

Lemma lit_round_trip_witness :
  isPrimitive (@JNumber SampleHost (integer 5)) = true
  /\ _paramsMode dollarRenderer = true
  /\ renderExpr dollarRenderer (lit (@JNumber SampleHost (integer 5))) []
     = (Return (renderPlaceholder dollarRenderer 1),
        [@JNumber SampleHost (integer 5)])
  /\ _paramsMode inlineRenderer = false
  /\ renderExpr inlineRenderer (lit (@JNumber SampleHost (integer 5))) []
     = (Return (inlineValue (@JNumber SampleHost (integer 5))), []).
Proof.
  split; [reflexivity | split; [reflexivity | split; [| split]]].
  - exact (proj1 (lit_round_trip dollarRenderer (@JNumber SampleHost (integer 5)) []
                    eq_refl) eq_refl).
  - reflexivity.
  - exact (proj2 (lit_round_trip inlineRenderer (@JNumber SampleHost (integer 5)) []
                    eq_refl) eq_refl).
Defined.

Lemma two_keys_distinct : NoDup (map fst [("a", 1); ("b", 2)]).
Proof.
  constructor; [simpl; intros [H | H]; [discriminate H | exact H] |].
  constructor; [simpl; intros H; exact H | constructor].
Defined.

Lemma one_key_distinct : NoDup (map fst [("b", 3)]).
Proof. constructor; [simpl; intros H; exact H | constructor]. Defined.

(** copy of an object with the keys a and b, with a new value for b. *)
Lemma copy_reads_vals_then_obj_witness :
  NoDup (map fst [("a", 1); ("b", 2)])
  /\ NoDup (map fst [("b", 3)])
  /\ get nat "b" (copy nat [("a", 1); ("b", 2)] [("b", 3)]) = Some 3
  /\ get nat "a" (copy nat [("a", 1); ("b", 2)] [("b", 3)]) = Some 1.
Proof.
  split; [exact two_keys_distinct | split; [exact one_key_distinct |]].
  split.
  - exact (copy_reads_vals_then_obj nat [("a", 1); ("b", 2)] [("b", 3)] "b"
             two_keys_distinct one_key_distinct).
  - exact (copy_reads_vals_then_obj nat [("a", 1); ("b", 2)] [("b", 3)] "a"
             two_keys_distinct one_key_distinct).
Defined.

(** tag on an object without a tag of its own. *)
Lemma tag_keeps_an_own_tag_witness :
  NoDup (map fst [("a", 1); ("b", 2)])
  /\ get nat "_tag" (tag nat 7 [("a", 1); ("b", 2)]) = Some 7
  /\ "a" <> "_tag"
  /\ get nat "a" (tag nat 7 [("a", 1); ("b", 2)]) = Some 1.
Proof.
  assert (Hk : "a" <> "_tag") by discriminate.
  split; [exact two_keys_distinct | split; [| split; [exact Hk |]]].
  - exact (proj1 (tag_keeps_an_own_tag nat 7 [("a", 1); ("b", 2)] "a"
                    two_keys_distinct)).
  - exact (proj2 (tag_keeps_an_own_tag nat 7 [("a", 1); ("b", 2)] "a"
                    two_keys_distinct) Hk).
Defined.
